(** * Retrieval service: the FAISS / PostgreSQL manager

    A shallow embedding of [retrieval_service/faiss_manager.py] and the
    properties of its ingestion, search and reset paths.

    Modelling conventions.
    - A Python [str] is a [string] whose characters are code points below
      256; [str.split()] splits on the code points Python calls whitespace
      in that range.
    - Vector ids and [k] are Python / int64 integers, modelled in [Z].  The
      number of stored vectors is far below 2^63, so no wrap-around occurs.
    - The in-memory FAISS index ([IndexIDMap] over [IndexFlatL2]) is the list
      of its (id, vector) entries in insertion order; the index file on disk
      is an optional snapshot of such a list.
    - The psycopg2 connection is the pair of the committed rows of table
      [chunks] and the rows as the open transaction sees them.  The [id]
      SERIAL column is never read by the program and is left out.
    - The embedding model and the nearest-neighbour search of the index are
      external: they are parameters of the development.
    - Failures of the environment are inputs: a [DbFault] says which call of
      an operation the environment makes fail: one [cursor.execute], the
      commit, or the write of the index file.  The session itself stays
      usable, so that [conn.rollback()] goes through; a lost session is not
      modelled.
    - Failures that the arguments determine are part of the model: psycopg2
      refuses a string parameter that holds a NUL character with a
      [ValueError], before anything is sent to the server. *)

From Stdlib Require Import ZArith Lia Ascii String.
From stdpp Require Import base list gmap strings sorting.

Local Open Scope nat_scope.

(** ** Python primitives *)

Module Py.

(** [str.isspace] on one character, for code points below 256. *)
Definition isspace (c : ascii) : bool :=
  let n := N_of_ascii c in
  ((9 <=? n) && (n <=? 13) || (28 <=? n) && (n <=? 32)
   || (n =? 133) || (n =? 160))%N.

(** The token under construction is kept in reverse. *)
Definition flush (word : list ascii) : list string :=
  match word with
  | [] => []
  | _ => [string_of_list_ascii (rev word)]
  end.

Fixpoint split_from (word : list ascii) (text : string) : list string :=
  match text with
  | EmptyString => flush word
  | String c rest =>
      if isspace c then flush word ++ split_from [] rest
      else split_from (c :: word) rest
  end.

(** [text.split()] *)
Definition split (text : string) : list string := split_from [] text.

(** [sep.join(parts)] *)
Fixpoint join (sep : string) (parts : list string) : string :=
  match parts with
  | [] => ""%string
  | [p] => p
  | p :: rest => String.append p (String.append sep (join sep rest))
  end.

(** [range(start, stop, step)] for a positive step.  The loop counter runs
    while it is below [stop]; [fuel] bounds the number of iterations. *)
Fixpoint range_loop (fuel i stop step : nat) : list nat :=
  match fuel with
  | O => []
  | S fuel' =>
      if i <? stop then i :: range_loop fuel' (i + step) stop step else []
  end.

Definition range (start stop step : nat) : list nat :=
  range_loop (stop - start) start stop step.

(** [xs[i:j]] *)
Definition slice {A} (xs : list A) (i j : nat) : list A :=
  take (j - i) (drop i xs).

(** [np.arange(start, stop)] *)
Definition arange (start stop : Z) : list Z :=
  (fun i : nat => (start + Z.of_nat i)%Z) <$> seq 0 (Z.to_nat (stop - start)).

End Py.

(** ** Configuration *)

Definition CHUNK_SIZE : nat := 512.
Definition CHUNK_OVERLAP : nat := 128.

(** ** The chunker: [FaissManager._chunk_text] *)

Definition _chunk_text (text : string) : list string :=
  let tokens := Py.split text in
  (fun i => Py.join " "%string (Py.slice tokens i (i + CHUNK_SIZE)))
    <$> Py.range 0 (length tokens) (CHUNK_SIZE - CHUNK_OVERLAP).

(** ** External collaborators

    The sentence-embedding model and the nearest-neighbour search of the
    FAISS index are library code.  [encode] is [model.encode] on one
    sentence; [model.encode(chunks)] is [encode] on each chunk, in order.
    [knn entries q k] is what [index.search(q, k)] returns on an index
    holding [entries]: the pairs of the two parallel arrays [vector_ids[0]]
    and [distances[0]], or [None] when the library raises. *)

Class Collaborators := {
  Vec : Type;
  Score : Type;
  encode : string -> Vec;
  knn : list (Z * Vec) -> Vec -> Z -> option (list (Z * Score));
}.

(** ** Data model *)

(** A row of table [chunks] (columns [doc_id], [chunk_text], [vector_id]). *)
Record Row := mkRow {
  row_doc_id : string;
  row_chunk_text : string;
  row_vector_id : Z;
}.

(** One dictionary of the list [search] returns. *)
Record SearchResult `{Collaborators} := mkResult {
  doc_id : string;
  chunk_text : string;
  score : Score;
}.
Arguments mkResult {_} _ _ _.

(** The manager's mutable state and the two stores behind it. *)
Record World `{Collaborators} := mkWorld {
  index : list (Z * Vec);                (* self.index, in memory *)
  index_file : option (list (Z * Vec));  (* the file at self.index_path *)
  committed : list Row;                  (* table chunks, durable *)
  working : list Row;                    (* table chunks, as self.conn sees it *)
}.
Arguments mkWorld {_} _ _ _ _.

Inductive Exn :=
| PgOperationalError   (* a psycopg2.Error raised by the environment *)
| PgUniqueViolation    (* the psycopg2.Error of the UNIQUE constraint *)
| IndexSearchError     (* raised by index.search; not a psycopg2.Error *)
| PyIndexError         (* sequence index out of range *)
| PyValueError         (* psycopg2: a string literal cannot contain NUL *)
| IndexWriteError.     (* raised by faiss.write_index *)

Definition is_psycopg2_Error (e : Exn) : bool :=
  match e with
  | PgOperationalError | PgUniqueViolation => true
  | IndexSearchError | PyIndexError | PyValueError | IndexWriteError => false
  end.

(** Which call of an operation the environment makes fail. *)
Inductive DbFault :=
| NoFault
| ExecuteFails (i : nat)   (* the i-th cursor.execute of the operation *)
| CommitFails              (* conn.commit *)
| WriteIndexFails.         (* faiss.write_index *)

Definition execute_fails (f : DbFault) (i : nat) : bool :=
  match f with
  | ExecuteFails j => bool_decide (i = j)
  | _ => false
  end.

Definition commit_fails (f : DbFault) : bool :=
  match f with
  | CommitFails => true
  | _ => false
  end.

Definition write_fails (f : DbFault) : bool :=
  match f with
  | WriteIndexFails => true
  | _ => false
  end.

(** Whether a string holds the character NUL, which psycopg2 cannot pass
    to the server. *)
Definition has_nul (s : string) : bool :=
  existsb (Ascii.eqb "000"%char) (list_ascii_of_string s).

(** The effects on the two stores, in the order they happen. *)
Inductive Event :=
| EvIndexAdd (ids : list Z)   (* index.add_with_ids *)
| EvInsert (r : Row)          (* INSERT INTO chunks *)
| EvTruncate                  (* TRUNCATE TABLE chunks *)
| EvCommit                    (* conn.commit *)
| EvRollback                  (* conn.rollback *)
| EvWriteIndex                (* faiss.write_index *)
| EvRemoveIndexFile.          (* os.remove(index_path) *)

(** ** A monad for state, exceptions and the effect trace *)

Inductive Res (A : Type) :=
| Ret (a : A)
| Raise (e : Exn).
Arguments Ret {A} a.
Arguments Raise {A} e.

Definition M `{Collaborators} (A : Type) : Type :=
  World -> Res A * World * list Event.

Definition ret `{Collaborators} {A} (a : A) : M A :=
  fun w => (Ret a, w, []).

Definition raise `{Collaborators} {A} (e : Exn) : M A :=
  fun w => (Raise e, w, []).

Definition bind `{Collaborators} {A B} (m : M A) (k : A -> M B) : M B :=
  fun w =>
    match m w with
    | (Ret a, w1, t1) => let '(r, w2, t2) := k a w1 in (r, w2, t1 ++ t2)
    | (Raise e, w1, t1) => (Raise e, w1, t1)
    end.

(** [try: body  except psycopg2.Error as e: handler e] *)
Definition try_except_pg `{Collaborators} {A}
    (body : M A) (handler : Exn -> M A) : M A :=
  fun w =>
    match body w with
    | (Ret a, w1, t1) => (Ret a, w1, t1)
    | (Raise e, w1, t1) =>
        if is_psycopg2_Error e
        then let '(r, w2, t2) := handler e w1 in (r, w2, t1 ++ t2)
        else (Raise e, w1, t1)
    end.

Declare Scope m_scope.
Delimit Scope m_scope with M.
Notation "x <- c ;; k" := (bind c (fun x => k))
  (at level 100, c at next level, right associativity) : m_scope.
Notation "c ;; k" := (bind c (fun _ => k))
  (at level 100, right associativity) : m_scope.
Local Open Scope m_scope.

(** ** The primitive effects *)

Section Primitives.
Context `{Collaborators}.

(** [self.index.ntotal] *)
Definition index_ntotal : M Z :=
  fun w => (Ret (Z.of_nat (length (index w))), w, []).

(** [self.index.add_with_ids(embeddings, vector_ids)] *)
Definition index_add_with_ids (embeddings : list Vec) (vector_ids : list Z)
    : M unit :=
  fun w =>
    (Ret tt,
     mkWorld (index w ++ zip vector_ids embeddings)
             (index_file w) (committed w) (working w),
     [EvIndexAdd vector_ids]).

(** [self.index.search(query_embedding, k)] *)
Definition index_search (query_embedding : Vec) (k : Z) : M (list (Z * Score)) :=
  fun w =>
    match knn (index w) query_embedding k with
    | Some hits => (Ret hits, w, [])
    | None => (Raise IndexSearchError, w, [])
    end.

(** [FaissManager._save_index]:
    [faiss.write_index(self.index, self.index_path)] *)
Definition _save_index (fails : bool) : M unit :=
  fun w =>
    if fails then (Raise IndexWriteError, w, [])
    else (Ret tt,
          mkWorld (index w) (Some (index w)) (committed w) (working w),
          [EvWriteIndex]).

(** [os.path.exists(self.index_path)] *)
Definition os_path_exists : M bool :=
  fun w => (Ret (bool_decide (is_Some (index_file w))), w, []).

(** [os.remove(self.index_path)] *)
Definition os_remove : M unit :=
  fun w =>
    (Ret tt, mkWorld (index w) None (committed w) (working w),
     [EvRemoveIndexFile]).

(** [FaissManager._load_index]: the index read from the file, or a new
    empty one when there is no file. *)
Definition _load_index : M (list (Z * Vec)) :=
  fun w =>
    match index_file w with
    | Some entries => (Ret entries, w, [])
    | None => (Ret [], w, [])
    end.

(** [self.index = idx] *)
Definition set_index (idx : list (Z * Vec)) : M unit :=
  fun w =>
    (Ret tt, mkWorld idx (index_file w) (committed w) (working w), []).

(** [cursor.execute("INSERT INTO chunks ... VALUES (%s, %s, %s)", row)].
    The parameters are adapted first: a string with a NUL character raises
    a [ValueError] before the statement is sent.  [vector_id] is UNIQUE. *)
Definition execute_insert (fails : bool) (row : Row) : M unit :=
  fun w =>
    if has_nul (row_doc_id row) || has_nul (row_chunk_text row)
    then (Raise PyValueError, w, [])
    else if fails then (Raise PgOperationalError, w, [])
    else if bool_decide (row_vector_id row ∈ row_vector_id <$> working w)
    then (Raise PgUniqueViolation, w, [])
    else (Ret tt,
          mkWorld (index w) (index_file w) (committed w) (working w ++ [row]),
          [EvInsert row]).

(** [cursor.execute("SELECT ... FROM chunks WHERE vector_id IN %s", (ids,))]
    followed by [cursor.fetchall()] *)
Definition execute_select_in (fails : bool) (ids : list Z) : M (list Row) :=
  fun w =>
    if fails then (Raise PgOperationalError, w, [])
    else (Ret (filter (fun r => row_vector_id r ∈ ids) (working w)), w, []).

(** [cursor.execute("TRUNCATE TABLE chunks RESTART IDENTITY;")] *)
Definition execute_truncate (fails : bool) : M unit :=
  fun w =>
    if fails then (Raise PgOperationalError, w, [])
    else (Ret tt, mkWorld (index w) (index_file w) (committed w) [],
          [EvTruncate]).

(** [self.conn.commit()] *)
Definition conn_commit (fails : bool) : M unit :=
  fun w =>
    if fails then (Raise PgOperationalError, w, [])
    else (Ret tt, mkWorld (index w) (index_file w) (working w) (working w),
          [EvCommit]).

(** [self.conn.rollback()] *)
Definition conn_rollback : M unit :=
  fun w =>
    (Ret tt, mkWorld (index w) (index_file w) (committed w) (committed w),
     [EvRollback]).

End Primitives.

(** ** The manager's operations *)

(** The two normal exits of [add_document], each of which returns [None]:
    the early [return] taken when the chunker produced nothing, and the end
    of the body, reached after [len(chunks)] chunks were added, the number
    the last [print] shows. *)
Inductive Outcome :=
| Skipped
| Added (n : nat).

Section Manager.
Context `{Collaborators}.

(** The loop [for i, chunk in enumerate(chunks): cursor.execute(INSERT ...)],
    from position [i] on. *)
Fixpoint insert_chunks (f : DbFault) (doc_id : string) (vector_ids : list Z)
    (i : nat) (chunks : list string) : M unit :=
  match chunks with
  | [] => ret tt
  | chunk :: rest =>
      match vector_ids !! i with
      | None => raise PyIndexError
      | Some vid =>
          execute_insert (execute_fails f i) (mkRow doc_id chunk vid) ;;
          insert_chunks f doc_id vector_ids (S i) rest
      end
  end.

(** [FaissManager.add_document] *)
Definition add_document (f : DbFault) (doc_id content : string) : M Outcome :=
  let chunks := _chunk_text content in
  if bool_decide (chunks = []) then ret Skipped
  else
    let embeddings := encode <$> chunks in
    start_id <- index_ntotal ;;
    let vector_ids := Py.arange start_id (start_id + Z.of_nat (length chunks)) in
    index_add_with_ids embeddings vector_ids ;;
    try_except_pg
      (insert_chunks f doc_id vector_ids 0 chunks ;;
       conn_commit (commit_fails f))
      (fun e => conn_rollback ;; raise e) ;;
    _save_index (write_fails f) ;;
    ret (Added (length chunks)).

(** The dictionary [{row['vector_id']: row for row in rows}]. *)
Definition rows_by_vec_id (rows : list Row) : gmap Z Row :=
  foldl (fun m row => <[row_vector_id row := row]> m) ∅ rows.

(** The loop that assembles the results, over the hits in the order the
    index returned them. *)
Definition assemble (hits : list (Z * Score)) (by_id : gmap Z Row)
    : list SearchResult :=
  omap (fun hit : Z * Score =>
          (fun row => mkResult (row_doc_id row) (row_chunk_text row) hit.2)
            <$> by_id !! hit.1)
       hits.

(** [FaissManager.search] *)
Definition search (f : DbFault) (query : string) (k : Z)
    : M (list SearchResult) :=
  let query_embedding := encode query in
  hits <- index_search query_embedding k ;;
  try_except_pg
    (let vec_ids_tuple := filter (fun vid : Z => vid ≠ (-1)%Z) hits.*1 in
     if bool_decide (vec_ids_tuple = []) then ret []
     else
       rows <- execute_select_in (execute_fails f 0) vec_ids_tuple ;;
       ret (assemble hits (rows_by_vec_id rows)))
    (fun e => conn_rollback ;; raise e).

(** [FaissManager.reset] *)
Definition reset (f : DbFault) : M unit :=
  try_except_pg
    (execute_truncate (execute_fails f 0) ;;
     conn_commit (commit_fails f))
    (fun _ => conn_rollback) ;;
  file_exists <- os_path_exists ;;
  (if file_exists : bool then os_remove else ret tt) ;;
  idx <- _load_index ;;
  set_index idx.

(** The world a manager starts in when there is neither an index file nor
    a row in the table. *)
Definition empty_world : World := mkWorld [] None [] [].

(** Running an operation: the world it leaves. *)
Definition world_after {A} (m : M A) (w : World) : World := (m w).1.2.
Definition result_of {A} (m : M A) (w : World) : Res A := (m w).1.1.
Definition trace_of {A} (m : M A) (w : World) : list Event := (m w).2.

End Manager.

(** ** Construction of the manager *)

Section Lifecycle.
Context `{Collaborators}.

(** [FaissManager._init_db_connection]: [psycopg2.connect]; the new
    connection has no open transaction, it sees the committed rows. *)
Definition _init_db_connection (fails : bool) : M unit :=
  fun w =>
    if fails then (Raise PgOperationalError, w, [])
    else (Ret tt,
          mkWorld (index w) (index_file w) (committed w) (committed w), []).

(** [cursor.execute("CREATE TABLE IF NOT EXISTS chunks ...")]: the rows of
    an existing table stay; a table that did not exist is the empty list. *)
Definition execute_create_table (fails : bool) : M unit :=
  fun w =>
    if fails then (Raise PgOperationalError, w, []) else (Ret tt, w, []).

(** [FaissManager._create_tables] *)
Definition _create_tables (f : DbFault) : M unit :=
  try_except_pg
    (execute_create_table (execute_fails f 0) ;;
     conn_commit (commit_fails f))
    (fun e => conn_rollback ;; raise e).

(** [FaissManager.__init__]: a new manager over the stores of the world;
    whatever an earlier manager held in memory is not read. *)
Definition __init__ (connect_fails : bool) (f : DbFault) : M unit :=
  _init_db_connection connect_fails ;;
  _create_tables f ;;
  idx <- _load_index ;;
  set_index idx.

End Lifecycle.

(** ** The HTTP endpoints of [main.py] *)

Module Main.

(** What an endpoint function does: return a body (status 200), raise an
    [HTTPException], or let another exception escape.  The detail of an
    [HTTPException] is its fixed text, followed by [str(e)] of the [cause]
    when there is one. *)
Inductive Reply (A : Type) :=
| Respond (body : A)
| HTTPException (status_code : nat) (detail : string) (cause : option Exn)
| Unhandled (e : Exn).
Arguments Respond {A} body.
Arguments HTTPException {A} status_code detail cause.
Arguments Unhandled {A} e.

(** The dictionary [{"status": ..., "message": ...}]. *)
Record StatusMessage := mkStatusMessage {
  status : string;
  message : string;
}.

Section Endpoints.
Context `{Collaborators}.

(** An endpoint runs on [lifespan_context.get("faiss_manager")]: the
    manager's world, or [None] outside the lifespan of the application. *)
Definition Endpoint (A : Type) : Type :=
  option World -> Reply A * option World * list Event.

(** [search_vector], POST /search *)
Definition search_vector (f : DbFault) (query : string) (k : Z)
    : Endpoint (list SearchResult) :=
  fun ctx =>
    match ctx with
    | None => (HTTPException 503 "FaissManager not initialized" None, None, [])
    | Some manager =>
        match search f query k manager with
        | (Ret results, w, t) => (Respond results, Some w, t)
        | (Raise e, w, t) => (Unhandled e, Some w, t)
        end
    end.

(** [add_document], POST /add; in its body the name still denotes the
    manager's method. *)
Definition add_document (f : DbFault) (doc_id content : string)
    : Endpoint StatusMessage :=
  fun ctx =>
    match ctx with
    | None => (HTTPException 503 "FaissManager not initialized" None, None, [])
    | Some manager =>
        match add_document f doc_id content manager with
        | (Ret _, w, t) =>
            (Respond
               (mkStatusMessage "ok"
                  (String.append "Document '"
                     (String.append doc_id "' added successfully."))),
             Some w, t)
        | (Raise e, w, t) =>
            (HTTPException 500 "Failed to add document: " (Some e), Some w, t)
        end
    end.

(** [reset_state], POST /reset *)
Definition reset_state (f : DbFault) : Endpoint StatusMessage :=
  fun ctx =>
    match ctx with
    | None => (HTTPException 503 "FaissManager not initialized" None, None, [])
    | Some manager =>
        match reset f manager with
        | (Ret _, w, t) =>
            (Respond (mkStatusMessage "ok" "Service state has been reset."),
             Some w, t)
        | (Raise e, w, t) =>
            (HTTPException 500 "Failed to reset state: " (Some e), Some w, t)
        end
    end.

End Endpoints.
End Main.

(** ** The client script [scripts/test_vector_search.py] *)

Module TestScript.

(** What [requests.get(BASE_URL)] does: answer with a status code or raise
    [requests.ConnectionError]. *)
Inductive GetOutcome :=
| Response (status_code : nat)
| ConnectionError.

Definition retries : nat := 5.
Definition delay : nat := 2.

(** The loop of [wait_for_server] with [remaining] iterations to go; [get i]
    is the outcome of GET number [i].  It yields the value returned, the
    seconds slept and the number of requests sent. *)
Fixpoint wait_loop (remaining i : nat) (get : nat -> GetOutcome)
    : bool * nat * nat :=
  match remaining with
  | O => (false, 0, 0)
  | S remaining' =>
      match get i with
      | Response status_code =>
          if status_code =? 200 then (true, 0, 1)
          else
            let '(r, slept, sent) := wait_loop remaining' (S i) get in
            (r, slept, S sent)
      | ConnectionError =>
          let '(r, slept, sent) := wait_loop remaining' (S i) get in
          (r, delay + slept, S sent)
      end
  end.

(** [wait_for_server] *)
Definition wait_for_server (get : nat -> GetOutcome) : bool * nat * nat :=
  wait_loop retries 0 get.

End TestScript.

(** ** An in-memory stand-in for the collaborators

    Vectors are lists of integers, the score is the squared Euclidean
    distance, and the search sorts all entries by score, keeps the first
    [k] and fills the remaining slots with the id -1.  A [k] below 1 makes
    the search raise. *)

Module Fake.

Definition sq_dist (a b : list Z) : Z :=
  foldr Z.add 0%Z (zip_with (fun x y => ((x - y) * (x - y))%Z) a b).

Definition FLT_MAX : Z := (2 ^ 128)%Z.

Definition fake_encode (s : string) : list Z :=
  [Z.of_nat (String.length s);
   match s with
   | EmptyString => 0%Z
   | String c _ => Z.of_N (N_of_ascii c)
   end].

Fixpoint insert_hit (h : Z * Z) (hits : list (Z * Z)) : list (Z * Z) :=
  match hits with
  | [] => [h]
  | h' :: rest =>
      if (h.2 <? h'.2)%Z then h :: h' :: rest else h' :: insert_hit h rest
  end.

(** Stable: of two entries at the same distance the older comes first. *)
Definition sort_hits (hits : list (Z * Z)) : list (Z * Z) :=
  foldl (fun acc h => insert_hit h acc) [] hits.

Definition fake_knn (entries : list (Z * list Z)) (q : list Z) (k : Z)
    : option (list (Z * Z)) :=
  if bool_decide (k < 1)%Z then None
  else
    let scored := (fun e : Z * list Z => (e.1, sq_dist e.2 q)) <$> entries in
    let sorted := sort_hits scored in
    let n := Z.to_nat k in
    Some (take n sorted ++ replicate (n - length sorted) ((-1)%Z, FLT_MAX)).

#[export] Instance collaborators : Collaborators := {|
  Vec := list Z;
  Score := Z;
  encode := fake_encode;
  knn := fake_knn;
|}.

(** Two sample worlds: one document ingested, then a second one. *)
Definition w1 : World :=
  (add_document NoFault "doc1" "the sky is blue" empty_world).1.2.

Definition w2 : World :=
  (add_document NoFault "doc2" "artificial intelligence is a field" w1).1.2.

End Fake.

(** * Vocabulary of the properties *)

(** The stride of the sliding window. *)
Definition stride : nat := CHUNK_SIZE - CHUNK_OVERLAP.

(** Number of windows: the quotient rounded up. *)
Definition ceil_div (a b : nat) : nat := (a + (b - 1)) / b.

(** The chunk count as the specification words it:
    ceil(max(T - overlap, 0) / stride). *)
Definition spec_chunk_count (T : nat) : nat :=
  Z.to_nat ((Z.max (Z.of_nat T - Z.of_nat CHUNK_OVERLAP) 0
             + (Z.of_nat stride - 1)) / Z.of_nat stride).

(** A string psycopg2 can pass to the server: it holds no NUL. *)
Definition adaptable (s : string) : Prop := has_nul s = false.

(** A document all of whose rows psycopg2 can pass to the server. *)
Definition storable (doc_id : string) (chunks : list string) : Prop :=
  adaptable doc_id /\ Forall adaptable chunks.

(** The rows one call inserts: chunk number j of the document under the
    id [vid + j]. *)
Fixpoint rows_from (doc_id : string) (vid : Z) (chunks : list string)
    : list Row :=
  match chunks with
  | [] => []
  | chunk :: rest => mkRow doc_id chunk vid :: rows_from doc_id (vid + 1) rest
  end.

Section Vocabulary.
Context `{Collaborators}.

(** The index after the vectors of [chunks] were added to it. *)
Definition with_vectors (w : World) (chunks : list string) : list (Z * Vec) :=
  let start_id := Z.of_nat (length (index w)) in
  index w
  ++ zip (Py.arange start_id (start_id + Z.of_nat (length chunks)))
         (encode <$> chunks).

(** What the SELECT of [search] fetches, as a dictionary. *)
Definition fetched (w : World) (hits : list (Z * Score)) : gmap Z Row :=
  rows_by_vec_id
    (filter (fun r => row_vector_id r ∈ filter (fun vid : Z => vid ≠ (-1)%Z) hits.*1)
            (working w)).

(** A hit has a row when its id is not the sentinel and some row of the
    table carries it. *)
Definition has_row (w : World) (hit : Z * Score) : Prop :=
  hit.1 ≠ (-1)%Z /\ hit.1 ∈ row_vector_id <$> working w.

#[export] Instance has_row_dec (w : World) (hit : Z * Score) :
  Decision (has_row w hit).
Proof. unfold has_row. apply _. Defined.

(** The id blocks a trace allocates: one per call of [add_with_ids]. *)
Definition allocated (t : list Event) : list (list Z) :=
  omap (fun ev => match ev with EvIndexAdd ids => Some ids | _ => None end) t.

(** The blocks of a call that returned normally. *)
Definition block_of {A} (out : Res A * World * list Event) : list (list Z) :=
  match out.1.1 with
  | Ret _ => allocated out.2
  | Raise _ => []
  end.

(** Calls between two resets. *)
Inductive Op :=
| OpAdd (f : DbFault) (doc_id content : string)
| OpSearch (f : DbFault) (query : string) (k : Z).

(** The blocks of the successful ingestions of a sequence of calls, in call
    order. *)
Fixpoint blocks_of_run (ops : list Op) (w : World) : list (list Z) :=
  match ops with
  | [] => []
  | OpAdd f doc_id content :: rest =>
      let out := add_document f doc_id content w in
      block_of out ++ blocks_of_run rest out.1.2
  | OpSearch f query k :: rest =>
      blocks_of_run rest (search f query k w).1.2
  end.

(** Ingesting documents (doc_id, content) one after the other with no store
    operation failing: the results of the calls and the final world. *)
Fixpoint ingest (docs : list (string * string)) (w : World)
    : list (Res Outcome) * World :=
  match docs with
  | [] => ([], w)
  | (doc_id, content) :: rest =>
      let out := add_document NoFault doc_id content w in
      let '(rs, w') := ingest rest out.1.2 in
      (out.1.1 :: rs, w')
  end.

(** The two stores agree: no transaction is open, entry number i of the
    index is the embedding of row number i under that row's id, and the ids
    are 0, 1, 2, ... in insertion order. *)
Definition consistent (w : World) : Prop :=
  working w = committed w
  /\ index w
     = (fun r => (row_vector_id r, encode (row_chunk_text r))) <$> committed w
  /\ row_vector_id <$> committed w
     = Py.arange 0 (0 + Z.of_nat (length (committed w))).

(** The effects of a reset on the index file. *)
Definition file_removal (w : World) : list Event :=
  match index_file w with
  | Some _ => [EvRemoveIndexFile]
  | None => []
  end.

End Vocabulary.

(** Every id of the first block is below every id of the second. *)
Definition block_before (b1 b2 : list Z) : Prop :=
  forall v1 v2, v1 ∈ b1 -> v2 ∈ b2 -> (v1 < v2)%Z.


(** ** Vocabulary of the further properties *)

(** A character that [str.split()] does not split at. *)
Definition not_space (c : ascii) : Prop := Py.isspace c = false.

(** A token: not empty and free of whitespace. *)
Definition is_token (s : string) : Prop :=
  s <> ""%string /\ Forall not_space (list_ascii_of_string s).

(** A text of whitespace only (the empty text included). *)
Definition blank (text : string) : Prop :=
  Forall (fun c => Py.isspace c = true) (list_ascii_of_string text).

(** The tokens chunk number [j] is made of. *)
Definition window (tokens : list string) (j : nat) : list string :=
  take CHUNK_SIZE (drop (j * stride) tokens).

Section FurtherVocabulary.
Context `{Collaborators}.

(** The world a sequence of calls leaves. *)
Fixpoint run (ops : list Op) (w : World) : World :=
  match ops with
  | [] => w
  | OpAdd f doc_id content :: rest =>
      run rest (add_document f doc_id content w).1.2
  | OpSearch f query k :: rest =>
      run rest (search f query k w).1.2
  end.

(** Every row is backed by a vector: no transaction is open, the ids of the
    index are 0, 1, 2, ... in insertion order, no two rows share an id, and
    the index holds, under each row's id, the embedding of the row's text.
    The index may hold further vectors that have no row. *)
Definition backed (w : World) : Prop :=
  working w = committed w
  /\ (index w).*1 = Py.arange 0 (0 + Z.of_nat (length (index w)))
  /\ NoDup (row_vector_id <$> committed w)
  /\ forall r, r ∈ committed w ->
               (row_vector_id r, encode (row_chunk_text r)) ∈ index w.

(** What [_load_index] would return. *)
Definition persisted_index (w : World) : list (Z * Vec) :=
  match index_file w with
  | Some entries => entries
  | None => []
  end.

(** Memory and stores coincide: no transaction is open and the index in
    memory is the one a new manager would load. *)
Definition durable (w : World) : Prop :=
  working w = committed w /\ persisted_index w = index w.

(** The ids of the rows the connection sees. *)
Definition stored_ids (w : World) : list Z := row_vector_id <$> working w.

(** A call none of whose strings psycopg2 refuses. *)
Definition storable_op (op : Op) : Prop :=
  match op with
  | OpAdd _ doc_id content => storable doc_id (_chunk_text content)
  | OpSearch _ _ _ => True
  end.

(** The index's own check on [k]: [index.search] refuses a [k] below 1. *)
Definition rejects_k_below_1 : Prop :=
  forall (entries : list (Z * Vec)) (q : Vec) (k : Z),
    (k < 1)%Z -> knn entries q k = None.

End FurtherVocabulary.

(** The number of connection errors among the first [n] requests from
    request [i] on. *)
Fixpoint connection_errors (n i : nat) (get : nat -> TestScript.GetOutcome) : nat :=
  match n with
  | O => 0
  | S n' =>
      match get i with
      | TestScript.ConnectionError => S (connection_errors n' (S i) get)
      | TestScript.Response _ => connection_errors n' (S i) get
      end
  end.

(** A text of [n] one-letter words. *)
Definition words (n : nat) : string := Py.join " " (replicate n "a"%string).


(** * Properties *)

(** ** The chunker *)

Lemma ceil_div_step (d step : nat) :
  0 < step -> 0 < d -> ceil_div d step = S (ceil_div (d - step) step).
Proof.
  intros Hs Hd. unfold ceil_div.
  destruct (decide (step <= d)) as [Hle|Hlt].
  - replace (d + (step - 1)) with ((d - step + (step - 1)) + 1 * step) by lia.
    rewrite Nat.div_add by lia. lia.
  - replace (d - step) with 0 by lia.
    rewrite (Nat.div_small (0 + (step - 1))) by lia.
    symmetry. apply (Nat.div_unique _ _ 1 (d - 1)); lia.
Qed.

Lemma ceil_div_0 (step : nat) : 0 < step -> ceil_div 0 step = 0.
Proof. intros Hs. unfold ceil_div. apply Nat.div_small. lia. Qed.

(** The loop of [range] never runs out of fuel, and visits the multiples of
    the step. *)
Lemma range_loop_spec (fuel : nat) :
  forall i stop step,
    0 < step -> stop - i <= fuel ->
    Py.range_loop fuel i stop step
    = (fun j => i + j * step) <$> seq 0 (ceil_div (stop - i) step).
Proof.
  induction fuel as [|fuel IH]; intros i stop step Hs Hf; simpl.
  - replace (stop - i) with 0 by lia. by rewrite ceil_div_0.
  - destruct (Nat.ltb_spec i stop) as [Hlt|Hge].
    + rewrite (ceil_div_step (stop - i) step) by lia.
      rewrite IH by lia. simpl. f_equal; [lia|].
      replace (stop - i - step) with (stop - (i + step)) by lia.
      rewrite <- fmap_S_seq, <- list_fmap_compose.
      apply list_fmap_ext. intros _ j _. simpl. lia.
    + replace (stop - i) with 0 by lia. by rewrite ceil_div_0.
Qed.

Lemma range_spec (stop step : nat) :
  0 < step ->
  Py.range 0 stop step = (fun j => j * step) <$> seq 0 (ceil_div stop step).
Proof.
  intros Hs. unfold Py.range. rewrite range_loop_spec by lia.
  by rewrite Nat.sub_0_r.
Qed.

Lemma chunk_text_windows (text : string) :
  _chunk_text text
  = (fun j => Py.join " "%string
                (take CHUNK_SIZE (drop (j * stride) (Py.split text))))
      <$> seq 0 (ceil_div (length (Py.split text)) stride).
Proof.
  unfold _chunk_text. fold stride.
  rewrite range_spec by (unfold stride, CHUNK_SIZE, CHUNK_OVERLAP; lia).
  rewrite <- list_fmap_compose. apply list_fmap_ext.
  intros _ j _. simpl. unfold Py.slice. do 2 f_equal. lia.
Qed.

Lemma chunk_text_length (text : string) :
  length (_chunk_text text) = ceil_div (length (Py.split text)) stride.
Proof. by rewrite chunk_text_windows, length_fmap, length_seq. Qed.

(** C5, as stated, fails: a text of one token yields one chunk, where the
    stated formula ceil(max(T - overlap, 0) / stride) gives zero. *)
Lemma C5_chunk_count_counterexample :
  length (Py.split "a") = 1
  /\ length (_chunk_text "a") <> spec_chunk_count (length (Py.split "a")).
Proof. split; [reflexivity|]. vm_compute. discriminate. Qed.

(** C5, amended: a text of T whitespace-separated tokens yields
    ceil(T / stride) chunks, stride = 512 - 128 = 384; chunk j is the join by
    single spaces of the (at most 512) tokens from position 384 * j on, so
    only a trailing window can be shorter than 512 tokens; zero tokens yield
    zero chunks. *)
Theorem C5_chunk_count (text : string) :
  let tokens := Py.split text in
  let T := length tokens in
  stride = 384
  /\ length (_chunk_text text) = (T + 383) / 384
  /\ (forall j, j < (T + 383) / 384 ->
        _chunk_text text !! j
        = Some (Py.join " "%string (take 512 (drop (384 * j) tokens)))
        /\ length (take 512 (drop (384 * j) tokens)) = Nat.min 512 (T - 384 * j)
        /\ 0 < T - 384 * j)
  /\ (T = 0 -> _chunk_text text = []).
Proof.
  intros tokens T.
  assert (Hst : stride = 384) by reflexivity.
  assert (Hcd : ceil_div T stride = (T + 383) / 384) by (by rewrite Hst).
  split; [done|]. split; [by rewrite chunk_text_length|]. split.
  - intros j Hj. split; [|split].
    + rewrite chunk_text_windows. fold tokens T. rewrite Hcd.
      rewrite list_lookup_fmap, lookup_seq_lt by done. simpl.
      rewrite Hst. do 4 f_equal. lia.
    + rewrite length_take, length_drop. fold T. lia.
    + assert (384 * j < T + 383) by
        (pose proof (Nat.Div0.mul_div_le (T + 383) 384); lia).
      assert (384 * ((T + 383) / 384) <= T + 383)
        by apply Nat.Div0.mul_div_le.
      lia.
  - intros HT. rewrite chunk_text_windows. fold tokens T.
    rewrite HT. reflexivity.
Qed.

(** ** Allocation of vector ids *)

Lemma length_arange (s : Z) (n : nat) :
  length (Py.arange s (s + Z.of_nat n)) = n.
Proof.
  unfold Py.arange. rewrite length_fmap, length_seq. lia.
Qed.

Lemma lookup_arange (s : Z) (n i : nat) :
  i < n -> Py.arange s (s + Z.of_nat n) !! i = Some (s + Z.of_nat i)%Z.
Proof.
  intros Hi. unfold Py.arange.
  rewrite list_lookup_fmap, lookup_seq_lt by lia. reflexivity.
Qed.

Lemma elem_of_arange (s e v : Z) :
  v ∈ Py.arange s e <-> (s <= v < e)%Z.
Proof.
  unfold Py.arange. rewrite list_elem_of_fmap. split.
  - intros (i & -> & Hi). apply elem_of_seq in Hi. lia.
  - intros Hv. exists (Z.to_nat (v - s)). split; [lia|].
    apply elem_of_seq. lia.
Qed.

Lemma arange_cons (s : Z) (n : nat) :
  Py.arange s (s + Z.of_nat (S n)) = s :: Py.arange (s + 1) (s + 1 + Z.of_nat n).
Proof.
  unfold Py.arange.
  replace (Z.to_nat (s + Z.of_nat (S n) - s)) with (S n) by lia.
  replace (Z.to_nat (s + 1 + Z.of_nat n - (s + 1))) with n by lia.
  simpl. f_equal; [lia|].
  rewrite <- fmap_S_seq, <- list_fmap_compose.
  apply list_fmap_ext. intros _ j _. simpl. lia.
Qed.

Lemma arange_app (s : Z) (n m : nat) :
  Py.arange s (s + Z.of_nat (n + m))
  = Py.arange s (s + Z.of_nat n)
    ++ Py.arange (s + Z.of_nat n) (s + Z.of_nat n + Z.of_nat m).
Proof.
  revert s. induction n as [|n IH]; intros s.
  - simpl. replace (s + Z.of_nat 0)%Z with s by lia.
    unfold Py.arange at 2. replace (Z.to_nat (s - s)) with 0 by lia.
    reflexivity.
  - replace (S n + m) with (S (n + m)) by lia.
    rewrite !arange_cons, IH. simpl. do 3 f_equal; lia.
Qed.

Lemma NoDup_arange (s e : Z) : NoDup (Py.arange s e).
Proof.
  unfold Py.arange. apply NoDup_fmap_2; [|apply NoDup_seq].
  intros i j Hij. lia.
Qed.

Lemma rows_from_vector_id (doc_id : string) (chunks : list string) :
  forall vid,
    row_vector_id <$> rows_from doc_id vid chunks
    = Py.arange vid (vid + Z.of_nat (length chunks)).
Proof.
  induction chunks as [|c chunks IH]; intros vid.
  - simpl. unfold Py.arange. replace (Z.to_nat _) with 0 by lia. reflexivity.
  - cbn [rows_from length fmap list_fmap]. rewrite arange_cons.
    simpl. f_equal. apply IH.
Qed.

Lemma rows_from_chunk_text (doc_id : string) (chunks : list string) :
  forall vid, row_chunk_text <$> rows_from doc_id vid chunks = chunks.
Proof.
  induction chunks as [|c chunks IH]; intros vid; simpl; [done|].
  f_equal. apply IH.
Qed.

Lemma length_rows_from (doc_id : string) (vid : Z) (chunks : list string) :
  length (rows_from doc_id vid chunks) = length chunks.
Proof.
  rewrite <- (rows_from_chunk_text doc_id chunks vid) at 2.
  by rewrite length_fmap.
Qed.

Lemma rows_from_lookup (doc_id : string) (chunks : list string) :
  forall vid j chunk,
    chunks !! j = Some chunk ->
    rows_from doc_id vid chunks !! j
    = Some (mkRow doc_id chunk (vid + Z.of_nat j)).
Proof.
  induction chunks as [|c chunks IH]; intros vid j chunk Hj; [done|].
  destruct j as [|j]; simpl in *.
  - injection Hj as ->. do 2 f_equal. lia.
  - rewrite (IH _ _ _ Hj). do 2 f_equal. lia.
Qed.

Lemma rows_from_entries `{Collaborators} (doc_id : string) (chunks : list string) :
  forall vid,
    (fun r => (row_vector_id r, encode (row_chunk_text r)))
      <$> rows_from doc_id vid chunks
    = zip (Py.arange vid (vid + Z.of_nat (length chunks))) (encode <$> chunks).
Proof.
  induction chunks as [|c chunks IH]; intros vid.
  - simpl. unfold Py.arange. replace (Z.to_nat _) with 0 by lia. reflexivity.
  - cbn [rows_from length fmap list_fmap]. rewrite arange_cons.
    simpl. f_equal. apply IH.
Qed.

(** ** The metadata transaction of [add_document] *)

Section Ingestion.
Context `{Collaborators}.

Lemma world_eta (w : World) :
  mkWorld (index w) (index_file w) (committed w) (working w) = w.
Proof. by destruct w. Qed.

Lemma storable_existsb (doc_id : string) (chunks : list string) :
  has_nul doc_id || existsb has_nul chunks = false -> storable doc_id chunks.
Proof.
  rewrite orb_false_iff. intros [Hd Hc]. split; [exact Hd|].
  induction chunks as [|c chunks IH]; [constructor|].
  simpl in Hc. apply orb_false_iff in Hc as [Hc1 Hc2].
  constructor; [exact Hc1|by apply IH].
Qed.

Lemma storable_cons (doc_id c : string) (chunks : list string) :
  storable doc_id (c :: chunks)
  <-> has_nul doc_id || has_nul c = false /\ storable doc_id chunks.
Proof.
  unfold storable, adaptable. rewrite Forall_cons, orb_false_iff. tauto.
Qed.

(** Without a fault, with strings psycopg2 accepts, and with every stored
    id below the ids to come, the loop inserts one row per chunk. *)
Lemma insert_chunks_ok (doc_id : string) (s : Z) (n : nat) (chunks : list string) :
  forall i w,
    i + length chunks <= n ->
    storable doc_id chunks ->
    Forall (fun r => (row_vector_id r < s + Z.of_nat i)%Z) (working w) ->
    insert_chunks NoFault doc_id (Py.arange s (s + Z.of_nat n)) i chunks w
    = (Ret tt,
       mkWorld (index w) (index_file w) (committed w)
               (working w ++ rows_from doc_id (s + Z.of_nat i) chunks),
       EvInsert <$> rows_from doc_id (s + Z.of_nat i) chunks).
Proof.
  induction chunks as [|c chunks IH]; intros i w Hn Hst Hfresh.
  - simpl. unfold ret. by rewrite app_nil_r, world_eta.
  - cbn [insert_chunks length] in *.
    apply storable_cons in Hst as [Hnul Hst].
    rewrite lookup_arange by lia.
    unfold bind, execute_insert.
    cbn [execute_fails row_doc_id row_chunk_text row_vector_id].
    rewrite Hnul.
    rewrite bool_decide_eq_false_2.
    2:{ intros Hin. apply list_elem_of_fmap in Hin as (r & Hr & Hin).
        rewrite Forall_forall in Hfresh. specialize (Hfresh r Hin).
        cbn in Hr. lia. }
    rewrite IH; cbn [working index index_file committed]; [|lia|done|].
    + replace (s + Z.of_nat (S i))%Z with (s + Z.of_nat i + 1)%Z by lia.
      cbn [rows_from fmap list_fmap]. by rewrite <- app_assoc.
    + apply Forall_app. split.
      * eapply Forall_impl; [exact Hfresh|]. intros r Hr. cbn in *. lia.
      * apply Forall_singleton. cbn. lia.
Qed.

(** Whatever the fault, the loop touches nothing but the open transaction,
    to which it appends the rows of the first [m] chunks; it either inserts
    them all, or fails with a database error, or with the [ValueError] of a
    string that holds a NUL. *)
Lemma insert_chunks_cases (f : DbFault) (doc_id : string) (s : Z) (n : nat)
    (chunks : list string) :
  forall i w,
    i + length chunks <= n ->
    exists r m,
      insert_chunks f doc_id (Py.arange s (s + Z.of_nat n)) i chunks w
      = (r,
         mkWorld (index w) (index_file w) (committed w)
                 (working w ++ take m (rows_from doc_id (s + Z.of_nat i) chunks)),
         EvInsert <$> take m (rows_from doc_id (s + Z.of_nat i) chunks))
      /\ ((r = Ret tt /\ m = length chunks)
          \/ ((r = Raise PgOperationalError \/ r = Raise PgUniqueViolation)
              /\ m < length chunks)
          \/ (r = Raise PyValueError /\ m < length chunks
              /\ ~ storable doc_id chunks)).
Proof.
  induction chunks as [|c chunks IH]; intros i w Hlen.
  - exists (Ret tt), 0. simpl. unfold ret.
    rewrite app_nil_r, world_eta. auto.
  - cbn [insert_chunks length] in *.
    rewrite lookup_arange by lia.
    unfold bind, execute_insert.
    cbn [row_doc_id row_chunk_text row_vector_id].
    destruct (has_nul doc_id || has_nul c) eqn:Hnul.
    { exists (Raise PyValueError), 0. simpl.
      rewrite app_nil_r, world_eta. split; [done|]. right. right.
      split; [done|]. split; [lia|].
      intros Hst. apply storable_cons in Hst as [Hnul' _]. congruence. }
    destruct (execute_fails f i).
    { exists (Raise PgOperationalError), 0. simpl.
      rewrite app_nil_r, world_eta. split; [done|]. right. left.
      split; [auto|lia]. }
    destruct (bool_decide _).
    { exists (Raise PgUniqueViolation), 0. simpl.
      rewrite app_nil_r, world_eta. split; [done|]. right. left.
      split; [auto|lia]. }
    edestruct (IH (S i)) as (r & m & -> & Hr); [lia|].
    exists r, (S m).
    cbn [working index index_file committed fmap list_fmap rows_from take].
    replace (s + Z.of_nat i + 1)%Z with (s + Z.of_nat (S i))%Z by lia.
    rewrite <- app_assoc. split; [done|].
    destruct Hr as [[-> ->]|[[Hr Hm]|(-> & Hm & Hns)]].
    + by left.
    + right. left. split; [done|lia].
    + right. right. split; [done|]. split; [lia|].
      intros Hst. apply storable_cons in Hst as [_ Hst]. by apply Hns.
Qed.

(** The four ways [add_document] ends for a document of at least one
    chunk: success; a database error, after which the transaction is rolled
    back; the [ValueError] of a NUL, which nothing catches, so that the
    rows inserted before it stay in the open transaction; and a failing
    write of the index file, after the rows were committed. *)
Lemma add_document_cases (f : DbFault) (doc_id content : string) (w : World) :
  let chunks := _chunk_text content in
  let start_id := Z.of_nat (length (index w)) in
  let vector_ids := Py.arange start_id (start_id + Z.of_nat (length chunks)) in
  let rows := rows_from doc_id start_id chunks in
  chunks <> [] ->
  (write_fails f = false
   /\ add_document f doc_id content w
      = (Ret (Added (length chunks)),
         mkWorld (with_vectors w chunks) (Some (with_vectors w chunks))
                 (working w ++ rows) (working w ++ rows),
         EvIndexAdd vector_ids :: (EvInsert <$> rows) ++ [EvCommit; EvWriteIndex]))
  \/ (exists e m,
        is_psycopg2_Error e = true /\ m <= length chunks
        /\ add_document f doc_id content w
           = (Raise e,
              mkWorld (with_vectors w chunks) (index_file w)
                      (committed w) (committed w),
              EvIndexAdd vector_ids :: (EvInsert <$> take m rows) ++ [EvRollback]))
  \/ (exists m,
        m < length chunks /\ ~ storable doc_id chunks
        /\ add_document f doc_id content w
           = (Raise PyValueError,
              mkWorld (with_vectors w chunks) (index_file w)
                      (committed w) (working w ++ take m rows),
              EvIndexAdd vector_ids :: (EvInsert <$> take m rows)))
  \/ (write_fails f = true
      /\ add_document f doc_id content w
         = (Raise IndexWriteError,
            mkWorld (with_vectors w chunks) (index_file w)
                    (working w ++ rows) (working w ++ rows),
            EvIndexAdd vector_ids :: (EvInsert <$> rows) ++ [EvCommit])).
Proof.
  cbv zeta. unfold add_document, with_vectors.
  generalize (_chunk_text content). intros chunks Hne.
  rewrite bool_decide_eq_false_2 by done.
  assert (Hall : take (length chunks)
                   (rows_from doc_id (Z.of_nat (length (index w))) chunks)
                 = rows_from doc_id (Z.of_nat (length (index w))) chunks).
  { apply firstn_all2. by rewrite length_rows_from. }
  cbv beta iota zeta delta [bind try_except_pg index_ntotal index_add_with_ids].
  match goal with
  | |- context [insert_chunks f doc_id ?ids 0 chunks ?w1] =>
      destruct (insert_chunks_cases f doc_id (Z.of_nat (length (index w)))
                  (length chunks) chunks 0 w1)
        as (r & m & Hins & Hr); [simpl; lia|]
  end.
  replace (Z.of_nat (length (index w)) + Z.of_nat 0)%Z
    with (Z.of_nat (length (index w))) in Hins by lia.
  rewrite !Hins. clear Hins.
  cbn [working index index_file committed] in *.
  destruct Hr as [[-> ->]|[[Hr Hm]|(-> & Hm & Hns)]].
  - rewrite Hall. unfold conn_commit. destruct (commit_fails f).
    + right. left. exists PgOperationalError, (length chunks).
      split; [done|]. split; [done|].
      cbn. by rewrite app_nil_r, Hall.
    + unfold _save_index. destruct (write_fails f).
      * right. right. right. split; [done|]. cbn.
        by rewrite <- app_assoc, !app_nil_r.
      * left. split; [done|]. cbn. by rewrite <- app_assoc.
  - right. left. destruct Hr as [-> | ->].
    + exists PgOperationalError, m. split; [done|]. split; [lia|]. done.
    + exists PgUniqueViolation, m. split; [done|]. split; [lia|]. done.
  - right. right. left. exists m. by split; [|split].
Qed.

Lemma add_document_skip (f : DbFault) (doc_id content : string) (w : World) :
  _chunk_text content = [] ->
  add_document f doc_id content w = (Ret Skipped, w, []).
Proof.
  intros Hnil. unfold add_document. by rewrite Hnil.
Qed.

(** Without a fault, with strings psycopg2 accepts, and with every stored
    id below the index's count, the call takes the successful branch. *)
Lemma add_document_ok (doc_id content : string) (w : World) :
  let chunks := _chunk_text content in
  let start_id := Z.of_nat (length (index w)) in
  let vector_ids := Py.arange start_id (start_id + Z.of_nat (length chunks)) in
  let rows := rows_from doc_id start_id chunks in
  chunks <> [] ->
  storable doc_id chunks ->
  Forall (fun r => (row_vector_id r < start_id)%Z) (working w) ->
  add_document NoFault doc_id content w
  = (Ret (Added (length chunks)),
     mkWorld (with_vectors w chunks) (Some (with_vectors w chunks))
             (working w ++ rows) (working w ++ rows),
     EvIndexAdd vector_ids :: (EvInsert <$> rows) ++ [EvCommit; EvWriteIndex]).
Proof.
  cbv zeta. unfold add_document, with_vectors.
  generalize (_chunk_text content). intros chunks Hne Hst Hfresh.
  rewrite bool_decide_eq_false_2 by done.
  cbv beta iota zeta delta [bind try_except_pg index_ntotal index_add_with_ids].
  rewrite !insert_chunks_ok;
    cbn [working index index_file committed]; [|simpl; lia|done|].
  - replace (Z.of_nat (length (index w)) + Z.of_nat 0)%Z
      with (Z.of_nat (length (index w))) by lia.
    cbn. by rewrite <- app_assoc.
  - eapply Forall_impl; [exact Hfresh|]. intros r Hr. cbn in *. lia.
Qed.

End Ingestion.

(** ** The search path *)

Section Search.
Context `{Collaborators}.

Lemma rows_by_vec_id_snoc (rows : list Row) (r : Row) :
  rows_by_vec_id (rows ++ [r]) = <[row_vector_id r := r]> (rows_by_vec_id rows).
Proof. unfold rows_by_vec_id. by rewrite foldl_app. Qed.

Lemma rows_by_vec_id_Some (rows : list Row) (v : Z) (r : Row) :
  rows_by_vec_id rows !! v = Some r -> r ∈ rows /\ row_vector_id r = v.
Proof.
  induction rows as [|r' rows IH] using rev_ind.
  - unfold rows_by_vec_id. simpl. by rewrite lookup_empty.
  - rewrite rows_by_vec_id_snoc.
    destruct (decide (row_vector_id r' = v)) as [<-|Hne].
    + rewrite lookup_insert_eq. intros [= <-]. split; [|done].
      apply elem_of_app. right. by apply list_elem_of_singleton.
    + rewrite lookup_insert_ne by done. intros Hl.
      destruct (IH Hl) as [Hin Hv]. split; [|done].
      apply elem_of_app. by left.
Qed.

Lemma rows_by_vec_id_is_Some (rows : list Row) (v : Z) :
  is_Some (rows_by_vec_id rows !! v) <-> v ∈ row_vector_id <$> rows.
Proof.
  induction rows as [|r' rows IH] using rev_ind.
  - unfold rows_by_vec_id. simpl. rewrite lookup_empty. split.
    + by intros [? ?].
    + by intros ?%elem_of_nil.
  - rewrite rows_by_vec_id_snoc, fmap_app, elem_of_app. simpl.
    rewrite list_elem_of_singleton.
    destruct (decide (row_vector_id r' = v)) as [<-|Hne].
    + rewrite lookup_insert_eq. split; [by right|by eexists].
    + rewrite lookup_insert_ne by done. rewrite IH. split; [by left|].
      intros [?|?]; [done|congruence].
Qed.

Lemma rows_by_vec_id_NoDup (rows : list Row) (r : Row) :
  NoDup (row_vector_id <$> rows) -> r ∈ rows ->
  rows_by_vec_id rows !! row_vector_id r = Some r.
Proof.
  intros Hnd Hin.
  destruct (proj2 (rows_by_vec_id_is_Some rows (row_vector_id r))) as [r' Hr'].
  { apply list_elem_of_fmap. by exists r. }
  rewrite Hr'. f_equal.
  apply rows_by_vec_id_Some in Hr' as [Hin' Heq].
  apply list_elem_of_lookup in Hin as [i Hi].
  apply list_elem_of_lookup in Hin' as [i' Hi'].
  assert (i' = i) as ->; [|congruence].
  eapply NoDup_lookup; [exact Hnd| |]; rewrite list_lookup_fmap.
  - by rewrite Hi'.
  - rewrite Hi. simpl. by rewrite Heq.
Qed.

Lemma fetched_is_Some (w : World) (hits : list (Z * Score)) (hit : Z * Score) :
  hit ∈ hits -> is_Some (fetched w hits !! hit.1) <-> has_row w hit.
Proof.
  intros Hin. unfold fetched, has_row.
  rewrite rows_by_vec_id_is_Some, list_elem_of_fmap. split.
  - intros (r & Hr & Hf). apply list_elem_of_filter in Hf as [Hv Hw].
    apply list_elem_of_filter in Hv as [Hne _]. rewrite Hr. split; [done|].
    apply list_elem_of_fmap. by exists r.
  - intros [Hne Hw]. apply list_elem_of_fmap in Hw as (r & Hr & Hw).
    exists r. split; [done|]. apply list_elem_of_filter. split; [|done].
    apply list_elem_of_filter. rewrite <- Hr. split; [done|].
    apply list_elem_of_fmap. by exists hit.
Qed.

Lemma fetched_Some (w : World) (hits : list (Z * Score)) (v : Z) (r : Row) :
  fetched w hits !! v = Some r -> r ∈ working w /\ row_vector_id r = v.
Proof.
  intros Hl. apply rows_by_vec_id_Some in Hl as [Hin Hv]. split; [|done].
  by apply list_elem_of_filter in Hin as [_ Hin].
Qed.

(** [search] touches no store; at most it rolls the open transaction
    back. *)
Lemma search_frame (f : DbFault) (query : string) (k : Z) (w : World) :
  exists r,
    search f query k w = (r, w, [])
    \/ (search f query k w
        = (r, mkWorld (index w) (index_file w) (committed w) (committed w),
           [EvRollback])
        /\ r = Raise PgOperationalError).
Proof.
  unfold search.
  cbv beta iota zeta delta [bind try_except_pg index_search ret raise
                            execute_select_in conn_rollback].
  destruct (knn (index w) (encode query) k) as [hits|]; [|eauto].
  destruct (bool_decide _); [eauto|].
  destruct (execute_fails f 0); cbn; eauto.
Qed.

Lemma assemble_empty (hits : list (Z * Score)) : assemble hits ∅ = [].
Proof.
  unfold assemble. induction hits as [|h hits IH]; [done|].
  simpl. by rewrite lookup_empty.
Qed.

(** The successful path of [search]. *)
Lemma search_ok (query : string) (k : Z) (w : World) (hits : list (Z * Score)) :
  knn (index w) (encode query) k = Some hits ->
  search NoFault query k w = (Ret (assemble hits (fetched w hits)), w, []).
Proof.
  intros Hknn. unfold search.
  cbv beta iota zeta delta [bind try_except_pg index_search ret raise
                            execute_select_in conn_rollback].
  rewrite Hknn. unfold fetched.
  destruct (bool_decide_reflect
              (filter (fun vid : Z => vid ≠ (-1)%Z) hits.*1 = [])) as [Hnil|Hne].
  - rewrite Hnil. do 3 f_equal.
    assert (Hemp : filter (fun r : Row => row_vector_id r ∈ @nil Z) (working w) = []).
    { induction (working w) as [|r rows IH]; [done|].
      rewrite filter_cons_False; [done|]. apply not_elem_of_nil. }
    rewrite Hemp. symmetry. apply assemble_empty.
  - reflexivity.
Qed.

End Search.

(** ** Ingestion: empty content, ordering, failure *)

Section IngestionClaims.
Context `{Collaborators}.

(** C8, amended: [add_document] with empty content takes the early exit
    and returns normally; the index, the index file and the table
    (committed rows and open transaction alike) are as they were, and no
    effect on either store takes place.  No count is returned: the /add
    endpoint answers with status "ok" and the message that the document was
    added successfully. *)
Theorem C8_empty_content_is_noop (f : DbFault) (doc_id : string) (w : World) :
  add_document f doc_id "" w = (Ret Skipped, w, [])
  /\ Main.add_document f doc_id "" (Some w)
     = (Main.Respond
          (Main.mkStatusMessage "ok"
             (String.append "Document '"
                (String.append doc_id "' added successfully."))),
        Some w, []).
Proof.
  assert (Hskip : add_document f doc_id "" w = (Ret Skipped, w, []))
    by (by apply add_document_skip).
  split; [done|]. unfold Main.add_document. by rewrite Hskip.
Qed.


End IngestionClaims.

(** ** Search: read-only, ranking, dropped ids *)

Section SearchClaims.
Context `{Collaborators}.

(** C10: whatever the query, [k] and the fault, and whether [search]
    returns or raises, the index, its count, the index file and the
    committed rows are those from before the call; the only effect a search
    can have is the rollback of its error path. *)
Theorem C10_search_read_only (f : DbFault) (query : string) (k : Z) (w : World) :
  let out := search f query k w in
  index out.1.2 = index w
  /\ length (index out.1.2) = length (index w)
  /\ index_file out.1.2 = index_file w
  /\ committed out.1.2 = committed w
  /\ (out.2 = [] \/ out.2 = [EvRollback]).
Proof.
  cbv zeta. destruct (search_frame f query k w) as [r [-> | [-> _]]]; cbn.
  all: repeat (split; [reflexivity|]); auto.
Qed.

Lemma assemble_filter (w : World) (hits hs : list (Z * Score)) :
  (forall h, h ∈ hs -> h ∈ hits) ->
  Forall2
    (fun res hit =>
       score res = hit.2
       /\ exists row, row ∈ working w /\ row_vector_id row = hit.1
                      /\ doc_id res = row_doc_id row
                      /\ chunk_text res = row_chunk_text row)
    (assemble hs (fetched w hits)) (filter (has_row w) hs).
Proof.
  induction hs as [|h hs IH]; intros Hsub; [constructor|].
  assert (Hh : h ∈ hits) by (apply Hsub; left).
  assert (Hrest : forall h', h' ∈ hs -> h' ∈ hits)
    by (intros h' Hh'; apply Hsub; by right).
  unfold assemble. cbn [omap list_omap]. fold (assemble hs (fetched w hits)).
  destruct (fetched w hits !! h.1) as [row|] eqn:Hl; simpl.
  - rewrite filter_cons_True by (by apply (fetched_is_Some w hits h Hh); eexists).
    constructor; [|by apply IH].
    split; [done|]. exists row. apply fetched_Some in Hl as [? ?]. done.
  - rewrite filter_cons_False; [by apply IH|].
    intros Hrow. apply (fetched_is_Some w hits h Hh) in Hrow as [? Hrow].
    congruence.
Qed.

Lemma StronglySorted_fmap_filter {A B} (R : relation B) (g : A -> B)
    (P : A -> Prop) `{forall x, Decision (P x)} (l : list A) :
  StronglySorted R (g <$> l) -> StronglySorted R (g <$> filter P l).
Proof.
  induction l as [|a l IH]; [done|].
  rewrite fmap_cons, StronglySorted_cons. intros [Hall Hs].
  destruct (decide (P a)).
  - rewrite filter_cons_True, fmap_cons, StronglySorted_cons by done.
    split; [|by apply IH].
    rewrite Forall_forall in *. intros x Hx. apply Hall.
    apply list_elem_of_fmap in Hx as (y & -> & Hy).
    apply list_elem_of_filter in Hy as [_ Hy].
    by apply list_elem_of_fmap_2.
  - rewrite filter_cons_False by done. by apply IH.
Qed.

(** C6: when the index search returns, a fault-free [search] returns
    normally, and its results are the hits that have a row, in the order of
    the hits: result number i carries the score of the i-th such hit and the
    docId and text of a row with that hit's id.  Hits whose id is the
    sentinel -1 or has no row are left out without an error.  Hence, when
    the hits come by ascending score, so do the results. *)
Theorem C6_search_order_and_drop (le : relation Score)
    (query : string) (k : Z) (w : World) (hits : list (Z * Score)) :
  knn (index w) (encode query) k = Some hits ->
  exists results,
    search NoFault query k w = (Ret results, w, [])
    /\ Forall2
         (fun res hit =>
            score res = hit.2
            /\ exists row, row ∈ working w /\ row_vector_id row = hit.1
                           /\ doc_id res = row_doc_id row
                           /\ chunk_text res = row_chunk_text row)
         results (filter (has_row w) hits)
    /\ (StronglySorted le hits.*2 -> StronglySorted le (score <$> results)).
Proof.
  intros Hknn. exists (assemble hits (fetched w hits)).
  split; [by apply search_ok|].
  pose proof (assemble_filter w hits hits (fun h Hh => Hh)) as HF.
  split; [exact HF|]. intros Hsorted.
  assert (Heq : score <$> assemble hits (fetched w hits)
                = (filter (has_row w) hits).*2).
  { induction HF as [|res hit rs hs [Hs _] _ IH]; [done|].
    rewrite !fmap_cons, Hs. by f_equal. }
  rewrite Heq. by apply StronglySorted_fmap_filter.
Qed.

End SearchClaims.

(** ** Blocks of vector ids *)

Section Blocks.
Context `{Collaborators}.

Lemma allocated_inserts (rows : list Row) : allocated (EvInsert <$> rows) = [].
Proof. unfold allocated. induction rows as [|r rows IH]; [done|]. by simpl. Qed.

Lemma allocated_add (ids : list Z) (rows : list Row) (tail : list Event) :
  allocated tail = [] ->
  allocated (EvIndexAdd ids :: (EvInsert <$> rows) ++ tail) = [ids].
Proof.
  intros Htail.
  change (allocated (EvIndexAdd ids :: (EvInsert <$> rows) ++ tail))
    with (ids :: allocated ((EvInsert <$> rows) ++ tail)).
  f_equal. unfold allocated in *. rewrite omap_app, Htail.
  fold (allocated (EvInsert <$> rows)). by rewrite allocated_inserts.
Qed.

(** What all ends of [add_document] share, for a document of at least one
    chunk: the vectors are in the index, one block was allocated, and the
    call either succeeded or raised. *)
Lemma add_document_ends (f : DbFault) (doc_id content : string) (w : World) :
  let chunks := _chunk_text content in
  let start_id := Z.of_nat (length (index w)) in
  let vector_ids := Py.arange start_id (start_id + Z.of_nat (length chunks)) in
  let rows := rows_from doc_id start_id chunks in
  let out := add_document f doc_id content w in
  chunks <> [] ->
  index out.1.2 = with_vectors w chunks
  /\ allocated out.2 = [vector_ids]
  /\ (out = (Ret (Added (length chunks)),
             mkWorld (with_vectors w chunks) (Some (with_vectors w chunks))
                     (working w ++ rows) (working w ++ rows),
             EvIndexAdd vector_ids
             :: (EvInsert <$> rows) ++ [EvCommit; EvWriteIndex])
      \/ exists e, out.1.1 = Raise e).
Proof.
  intros chunks start_id vector_ids rows out Hne.
  destruct (add_document_cases f doc_id content w Hne)
    as [[_ Hok] | [(e & m & _ & _ & Hfail)
                  | [(m & _ & _ & Hval) | [_ Hwr]]]]; subst out.
  - rewrite Hok. cbn [fst snd index].
    split; [done|]. split; [by apply allocated_add|by left].
  - rewrite Hfail. cbn [fst snd index].
    split; [done|]. split; [by apply allocated_add|right; by eexists].
  - rewrite Hval. cbn [fst snd index]. split; [done|]. split.
    + rewrite <- (app_nil_r (EvInsert <$> _)). by apply allocated_add.
    + right. by eexists.
  - rewrite Hwr. cbn [fst snd index].
    split; [done|]. split; [by apply allocated_add|right; by eexists].
Qed.

Lemma length_with_vectors (w : World) (chunks : list string) :
  length (with_vectors w chunks) = length (index w) + length chunks.
Proof.
  unfold with_vectors.
  rewrite length_app, length_zip, length_arange, length_fmap. lia.
Qed.

Lemma with_vectors_ids (w : World) (chunks : list string) :
  (with_vectors w chunks).*1
  = (index w).*1
    ++ Py.arange (Z.of_nat (length (index w)))
                 (Z.of_nat (length (index w)) + Z.of_nat (length chunks)).
Proof.
  unfold with_vectors. rewrite fmap_app, fst_zip; [done|].
  by rewrite length_arange, length_fmap.
Qed.

(** A call allocates no block unless it returns normally with chunks; then
    it allocates the block that starts at the count it read, and the count
    grows by the number of chunks. *)
Lemma add_document_block (f : DbFault) (doc_id content : string) (w : World) :
  let out := add_document f doc_id content w in
  let start_id := Z.of_nat (length (index w)) in
  length (index w) <= length (index out.1.2)
  /\ (block_of out = []
      \/ block_of out
         = [Py.arange start_id
              (start_id + Z.of_nat (length (_chunk_text content)))]
         /\ length (index out.1.2)
            = length (index w) + length (_chunk_text content)).
Proof.
  cbv zeta.
  destruct (decide (_chunk_text content = [])) as [Hnil|Hne].
  - rewrite add_document_skip by done. cbn. auto.
  - destruct (add_document_ends f doc_id content w Hne)
      as (Hidx & Halloc & Hend).
    rewrite Hidx, length_with_vectors. split; [lia|].
    unfold block_of. destruct Hend as [Hok | [e He]].
    + right. split; [|done]. rewrite <- Halloc. by rewrite Hok.
    + left. by rewrite He.
Qed.

Lemma search_index (f : DbFault) (query : string) (k : Z) (w : World) :
  index (search f query k w).1.2 = index w.
Proof. by destruct (search_frame f query k w) as [r [-> | [-> _]]]. Qed.

(** Every block of a run lies at or above the count the run started with. *)
Lemma blocks_of_run_lower (ops : list Op) :
  forall w b v,
    b ∈ blocks_of_run ops w -> v ∈ b -> (Z.of_nat (length (index w)) <= v)%Z.
Proof.
  induction ops as [|[f d c|f q k] ops IH]; intros w b v Hb Hv.
  - by apply elem_of_nil in Hb.
  - cbn [blocks_of_run] in Hb. apply elem_of_app in Hb.
    destruct (add_document_block f d c w) as [Hmono Hblock].
    destruct Hb as [Hb|Hb].
    + destruct Hblock as [Hnil|[Hone _]].
      * rewrite Hnil in Hb. by apply elem_of_nil in Hb.
      * rewrite Hone in Hb. apply list_elem_of_singleton in Hb as ->.
        apply elem_of_arange in Hv. lia.
    + specialize (IH _ _ _ Hb Hv). lia.
  - cbn [blocks_of_run] in Hb. specialize (IH _ _ _ Hb Hv).
    by rewrite search_index in IH.
Qed.

Lemma blocks_of_run_sorted (ops : list Op) :
  forall w, StronglySorted block_before (blocks_of_run ops w).
Proof.
  induction ops as [|[f d c|f q k] ops IH]; intros w.
  - constructor.
  - cbn [blocks_of_run].
    destruct (add_document_block f d c w) as [Hmono [Hnil|[Hone Hlen]]].
    + rewrite Hnil. apply IH.
    + rewrite Hone. simpl. apply StronglySorted_cons. split; [|apply IH].
      apply Forall_forall. intros b Hb v1 v2 Hv1 Hv2.
      apply elem_of_arange in Hv1.
      pose proof (blocks_of_run_lower _ _ _ _ Hb Hv2). lia.
  - cbn [blocks_of_run]. apply IH.
Qed.

Lemma StronglySorted_lookup {A} (R : relation A) (l : list A) :
  StronglySorted R l ->
  forall i j x y, i < j -> l !! i = Some x -> l !! j = Some y -> R x y.
Proof.
  induction 1 as [|a l Hs IH Hall]; intros i j x y Hij Hi Hj; [done|].
  destruct j as [|j]; [lia|]. destruct i as [|i]; simpl in *.
  - injection Hi as <-. rewrite Forall_forall in Hall.
    apply Hall. by eapply list_elem_of_lookup_2.
  - eapply (IH i j); [lia|done|done].
Qed.

(** C1: a call of [add_document] that produces n > 0 chunks allocates
    exactly one block, the ids from the index's count before the call up to
    that count plus n, these are the ids under which the n vectors enter the
    index and, when the call succeeds, the ids of the n rows it commits, in
    chunk order.  In a run of ingestions and searches with no reset between
    them, whatever faults occur, the blocks of two distinct successful calls
    never share an id: every id of the earlier block is below every id of
    the later one. *)
Theorem C1_vector_id_blocks :
  (forall (f : DbFault) (doc_id content : string) (w : World),
     let chunks := _chunk_text content in
     let start_id := Z.of_nat (length (index w)) in
     let block := Py.arange start_id (start_id + Z.of_nat (length chunks)) in
     let out := add_document f doc_id content w in
     chunks <> [] ->
     allocated out.2 = [block]
     /\ (forall v, v ∈ block
                   <-> (start_id <= v < start_id + Z.of_nat (length chunks))%Z)
     /\ (index out.1.2).*1 = (index w).*1 ++ block
     /\ (forall o, out.1.1 = Ret o ->
           exists rows,
             committed out.1.2 = working w ++ rows
             /\ row_vector_id <$> rows = block
             /\ row_chunk_text <$> rows = chunks))
  /\ (forall (ops : list Op) (w : World) (i j : nat) (b1 b2 : list Z),
        i < j ->
        blocks_of_run ops w !! i = Some b1 ->
        blocks_of_run ops w !! j = Some b2 ->
        (forall v, v ∈ b1 -> v ∉ b2)
        /\ (forall v1 v2, v1 ∈ b1 -> v2 ∈ b2 -> (v1 < v2)%Z)).
Proof.
  split.
  - intros f doc_id content w chunks start_id block out Hne.
    destruct (add_document_ends f doc_id content w Hne)
      as (Hidx & Halloc & Hend).
    split; [|split; [|split]].
    + exact Halloc.
    + intros v. apply elem_of_arange.
    + subst out. rewrite Hidx. apply with_vectors_ids.
    + intros o Ho. subst out. destruct Hend as [Hok | [e He]].
      * rewrite Hok. cbn [fst snd committed].
        exists (rows_from doc_id start_id chunks). split; [done|].
        split; [apply rows_from_vector_id|apply rows_from_chunk_text].
      * rewrite He in Ho. discriminate.
  - intros ops w i j b1 b2 Hij Hi Hj.
    pose proof (StronglySorted_lookup _ _ (blocks_of_run_sorted ops w)
                  i j b1 b2 Hij Hi Hj) as Hbefore.
    split; [|exact Hbefore].
    intros v Hv1 Hv2. specialize (Hbefore v v Hv1 Hv2). lia.
Qed.

End Blocks.

(** ** Agreement of the two stores *)

Section Agreement.
Context `{Collaborators}.

Lemma consistent_empty : consistent empty_world.
Proof. by repeat split. Qed.

Lemma consistent_count (w : World) :
  consistent w -> length (index w) = length (committed w).
Proof. intros (_ & Hidx & _). by rewrite Hidx, length_fmap. Qed.

Lemma consistent_fresh (w : World) :
  consistent w ->
  Forall (fun r => (row_vector_id r < Z.of_nat (length (index w)))%Z) (working w).
Proof.
  intros Hc. pose proof (consistent_count w Hc) as Hn.
  destruct Hc as (Hw & _ & Hids). rewrite Hw, Hn.
  apply Forall_forall. intros r Hr.
  assert (Hin : row_vector_id r ∈ row_vector_id <$> committed w)
    by (by apply list_elem_of_fmap_2).
  rewrite Hids in Hin. apply elem_of_arange in Hin. lia.
Qed.

(** A fault-free ingestion that returns keeps the stores in agreement and
    appends the rows of the document's chunks. *)
Lemma add_document_consistent (doc_id content : string) (w : World) :
  let out := add_document NoFault doc_id content w in
  consistent w ->
  (exists o, out.1.1 = Ret o) ->
  consistent out.1.2
  /\ committed out.1.2
     = committed w
       ++ rows_from doc_id (Z.of_nat (length (committed w))) (_chunk_text content).
Proof.
  cbv zeta. intros Hc [o Ho].
  destruct (decide (_chunk_text content = [])) as [Hnil|Hne].
  - rewrite add_document_skip by done. rewrite Hnil. cbn.
    by rewrite app_nil_r.
  - destruct (add_document_ends NoFault doc_id content w Hne)
      as (_ & _ & [Hok | [e He]]); [|by rewrite He in Ho].
    rewrite Hok. cbn [fst snd].
    pose proof (consistent_count w Hc) as Hn.
    destruct Hc as (Hw & Hidx & Hids). rewrite Hw, Hn.
    split; [|done]. split; [done|]. cbn [index committed]. split.
    + unfold with_vectors. rewrite fmap_app, rows_from_entries, Hn.
      by rewrite <- Hidx.
    + rewrite fmap_app, Hids, rows_from_vector_id, length_app.
      rewrite length_rows_from, arange_app. do 2 f_equal; lia.
Qed.

(** When the stores agree, a fault-free ingestion of a document whose
    strings psycopg2 accepts returns. *)
Lemma add_document_consistent_ok (doc_id content : string) (w : World) :
  consistent w -> _chunk_text content <> [] ->
  storable doc_id (_chunk_text content) ->
  (add_document NoFault doc_id content w).1.1
  = Ret (Added (length (_chunk_text content))).
Proof.
  intros Hc Hne Hst.
  by rewrite (add_document_ok doc_id content w Hne Hst (consistent_fresh w Hc)).
Qed.

(** A fault-free run of ingestions that all return keeps the stores in
    agreement and leaves a row for every chunk of every document. *)
Lemma ingest_consistent (docs : list (string * string)) :
  forall w0,
    consistent w0 ->
    Forall (fun r => exists o, r = Ret o) (ingest docs w0).1 ->
    consistent (ingest docs w0).2
    /\ (forall row, row ∈ committed w0 -> row ∈ committed (ingest docs w0).2)
    /\ (forall d c j chunk,
          (d, c) ∈ docs -> _chunk_text c !! j = Some chunk ->
          exists v, mkRow d chunk v ∈ committed (ingest docs w0).2).
Proof.
  induction docs as [|[d0 c0] docs IH]; intros w0 Hc Hret.
  - cbn. split; [done|]. split; [done|].
    intros d c j chunk Hin. by apply elem_of_nil in Hin.
  - cbn [ingest] in *.
    destruct (ingest docs (add_document NoFault d0 c0 w0).1.2) as [rs w'] eqn:Hing.
    cbn [fst snd] in Hret. apply Forall_cons in Hret as [Hret0 Hret].
    destruct (add_document_consistent d0 c0 w0 Hc Hret0) as (Hc1 & Hrows).
    specialize (IH _ Hc1). rewrite Hing in IH. cbn [fst snd] in IH.
    destruct (IH Hret) as (Hc2 & Hkeep & Hall).
    cbn [fst snd]. split; [done|]. split.
    + intros row Hrow. apply Hkeep. rewrite Hrows. apply elem_of_app. by left.
    + intros d c j chunk Hin Hj. apply elem_of_cons in Hin as [[= -> ->]|Hin].
      * exists (Z.of_nat (length (committed w0)) + Z.of_nat j)%Z.
        apply Hkeep. rewrite Hrows. apply elem_of_app. right.
        eapply list_elem_of_lookup_2. by apply rows_from_lookup.
      * by eapply Hall.
Qed.

Lemma consistent_NoDup (w : World) :
  consistent w -> NoDup (row_vector_id <$> committed w).
Proof. intros (_ & _ & ->). apply NoDup_arange. Qed.

Lemma consistent_index_ids (w : World) :
  consistent w -> (index w).*1 = row_vector_id <$> committed w.
Proof.
  intros (_ & -> & _). rewrite <- list_fmap_compose. by apply list_fmap_ext.
Qed.

Lemma NoDup_fmap_unique {A B} (g : A -> B) (l : list A) (x y : A) :
  NoDup (g <$> l) -> x ∈ l -> y ∈ l -> g x = g y -> x = y.
Proof.
  intros Hnd Hx Hy Hg.
  apply list_elem_of_lookup in Hx as [i Hi].
  apply list_elem_of_lookup in Hy as [j Hj].
  assert (i = j) as ->; [|congruence].
  eapply NoDup_lookup; [exact Hnd| |]; rewrite list_lookup_fmap.
  - by rewrite Hi.
  - rewrite Hj. simpl. by rewrite Hg.
Qed.

(** In a consistent world a hit on a row's id yields that row's result. *)
Lemma consistent_hit (w : World) (row : Row) (query : string) (k : Z)
    (hits : list (Z * Score)) (s : Score) :
  consistent w -> row ∈ committed w ->
  knn (index w) (encode query) k = Some hits ->
  (row_vector_id row, s) ∈ hits ->
  exists results,
    search NoFault query k w = (Ret results, w, [])
    /\ mkResult (row_doc_id row) (row_chunk_text row) s ∈ results.
Proof.
  intros Hc Hrow Hknn Hhit.
  exists (assemble hits (fetched w hits)). split; [by apply search_ok|].
  unfold assemble. apply list_elem_of_omap.
  exists (row_vector_id row, s). split; [done|]. cbn [fst snd].
  assert (Hl : fetched w hits !! row_vector_id row = Some row);
    [|by rewrite Hl].
  pose proof (consistent_NoDup w Hc) as Hnd.
  destruct Hc as (Hw & _ & Hids). unfold fetched. rewrite Hw.
  apply rows_by_vec_id_NoDup.
  - eapply sublist_NoDup; [exact Hnd|].
    apply fmap_sublist, sublist_filter.
  - apply list_elem_of_filter. split; [|done].
    apply list_elem_of_filter. split.
    + assert (Hin : row_vector_id row ∈ row_vector_id <$> committed w)
        by (by apply list_elem_of_fmap_2).
      rewrite Hids in Hin. apply elem_of_arange in Hin. lia.
    + apply list_elem_of_fmap. by exists (row_vector_id row, s).
Qed.

(** C2: after any sequence of successful [add_document] calls, that is,
    calls in which no store operation fails and all of which return, started
    from stores that agree (as the empty ones do): the ids of the index and
    of the rows are the same and none occurs twice, so each id of the index
    has exactly one row and each row's id is in the index; every chunk of
    every ingested document has a row with the document's docId and the
    chunk's text; and whenever a later search is handed a hit on a row's id,
    the result built from it carries that row's docId and chunk text, the
    row's vector being the embedding of that text. *)
Theorem C2_join_complete (docs : list (string * string)) (w0 : World) :
  let w := (ingest docs w0).2 in
  consistent w0 ->
  Forall (fun r => exists o, r = Ret o) (ingest docs w0).1 ->
  NoDup (index w).*1
  /\ NoDup (row_vector_id <$> committed w)
  /\ (forall v, v ∈ (index w).*1 <-> v ∈ row_vector_id <$> committed w)
  /\ (forall v, v ∈ (index w).*1 ->
        exists row, row ∈ committed w /\ row_vector_id row = v
                    /\ forall row', row' ∈ committed w ->
                                    row_vector_id row' = v -> row' = row)
  /\ (forall d c j chunk,
        (d, c) ∈ docs -> _chunk_text c !! j = Some chunk ->
        exists v, mkRow d chunk v ∈ committed w)
  /\ (forall row, row ∈ committed w ->
        (row_vector_id row, encode (row_chunk_text row)) ∈ index w
        /\ forall query k hits s,
             knn (index w) (encode query) k = Some hits ->
             (row_vector_id row, s) ∈ hits ->
             exists results,
               search NoFault query k w = (Ret results, w, [])
               /\ mkResult (row_doc_id row) (row_chunk_text row) s ∈ results).
Proof.
  intros w Hc0 Hret.
  destruct (ingest_consistent docs w0 Hc0 Hret) as (Hc & _ & Hall).
  fold w in Hc, Hall.
  pose proof (consistent_NoDup w Hc) as Hnd.
  pose proof (consistent_index_ids w Hc) as Hids.
  split; [by rewrite Hids|]. split; [done|].
  split; [by rewrite Hids|]. split; [|split; [done|]].
  - intros v Hv. rewrite Hids in Hv.
    apply list_elem_of_fmap in Hv as (row & -> & Hrow).
    exists row. split; [done|]. split; [done|].
    intros row' Hrow' Heq. by eapply NoDup_fmap_unique.
  - intros row Hrow. split.
    + destruct Hc as (_ & -> & _).
      by apply (list_elem_of_fmap_2
                  (fun r => (row_vector_id r, encode (row_chunk_text r)))).
    + intros query k hits s Hknn Hhit. by eapply consistent_hit.
Qed.

End Agreement.

(** ** Reset *)

Section ResetClaims.
Context `{Collaborators}.

Lemma reset_ok (w : World) :
  reset NoFault w
  = (Ret tt, empty_world, [EvTruncate; EvCommit] ++ file_removal w).
Proof.
  by destruct w as [idx [file|] com wrk].
Qed.

(** A reset whose TRUNCATE or commit fails rolls back, returns normally all
    the same, and goes on to discard the index. *)
Lemma reset_failed (f : DbFault) (w : World) :
  f = ExecuteFails 0 \/ f = CommitFails ->
  exists t,
    reset f w
    = (Ret tt, mkWorld [] None (committed w) (committed w),
       t ++ [EvRollback] ++ file_removal w).
Proof.
  intros [-> | ->]; destruct w as [idx [file|] com wrk];
    (exists [] + exists [EvTruncate]); reflexivity.
Qed.

(** C9: a successful reset leaves the empty state: no vector, no index
    file, no row; a second reset, successful or not, leaves that same
    state.  In it, a search whose index search returns gives the empty
    list, and a fault-free [add_document] of n > 0 chunks that succeeds
    has allocated the ids 0, ..., n - 1 for its vectors and rows; it does
    succeed when psycopg2 accepts the document's strings. *)
Theorem C9_reset_idempotent (w : World) :
  let w1 := (reset NoFault w).1.2 in
  (reset NoFault w).1.1 = Ret tt
  /\ w1 = empty_world
  /\ (reset NoFault w1).1.2 = w1
  /\ (forall f, (reset f w1).1.2 = w1)
  /\ (forall query k hits,
        knn (index w1) (encode query) k = Some hits ->
        search NoFault query k w1 = (Ret [], w1, []))
  /\ (forall doc_id content,
        let chunks := _chunk_text content in
        let out := add_document NoFault doc_id content w1 in
        let block := Py.arange 0 (0 + Z.of_nat (length chunks)) in
        chunks <> [] ->
        allocated out.2 = [block]
        /\ (index out.1.2).*1 = block
        /\ (storable doc_id chunks -> out.1.1 = Ret (Added (length chunks)))
        /\ (forall o, out.1.1 = Ret o ->
              o = Added (length chunks)
              /\ row_vector_id <$> committed out.1.2 = block
              /\ row_chunk_text <$> committed out.1.2 = chunks)).
Proof.
  cbv zeta. rewrite !reset_ok. cbn [fst snd]. rewrite ?reset_ok. cbn [fst snd].
  split; [done|]. split; [done|]. split; [done|]. split; [|split].
  - intros f. destruct f as [|[|i]| |].
    + by rewrite reset_ok.
    + by destruct (reset_failed (ExecuteFails 0) empty_world) as [t ->]; [left|].
    + reflexivity.
    + by destruct (reset_failed CommitFails empty_world) as [t ->]; [right|].
    + reflexivity.
  - intros query k hits Hknn. rewrite (search_ok query k empty_world hits Hknn).
    do 3 f_equal. unfold fetched. cbn [working empty_world].
    apply assemble_empty.
  - intros doc_id content Hne.
    destruct (add_document_ends NoFault doc_id content empty_world Hne)
      as (Hidx & Halloc & Hend).
    split; [exact Halloc|]. split; [by rewrite Hidx, with_vectors_ids|].
    split.
    + intros Hst.
      by rewrite (add_document_ok doc_id content empty_world Hne Hst)
        by constructor.
    + intros o Ho. destruct Hend as [Hok | [e He]]; [|by rewrite He in Ho].
      rewrite Hok in Ho |- *. cbn [fst snd committed working empty_world] in *.
      split; [by injection Ho|]. rewrite app_nil_l.
      split; [apply rows_from_vector_id|apply rows_from_chunk_text].
Qed.

End ResetClaims.

(** ** Validation of arguments *)

Section ValidationClaims.
Context `{Collaborators}.

Lemma with_vectors_nil (w : World) : with_vectors w [] = index w.
Proof.
  unfold with_vectors. simpl. unfold Py.arange.
  replace (Z.to_nat _) with 0 by lia. simpl. by rewrite app_nil_r.
Qed.

Lemma add_document_index (f : DbFault) (doc_id content : string) (w : World) :
  index (add_document f doc_id content w).1.2
  = with_vectors w (_chunk_text content).
Proof.
  destruct (decide (_chunk_text content = [])) as [Hnil|Hne].
  - rewrite add_document_skip by done. by rewrite Hnil, with_vectors_nil.
  - by destruct (add_document_ends f doc_id content w Hne) as (Hidx & _).
Qed.

(** C7, amended: the service validates neither argument.  [add_document]
    with an empty docId is not rejected: the vectors of the chunks enter the
    index as for any docId, and when the stores agree, nothing fails and
    psycopg2 accepts the chunks' strings, the call succeeds and commits the
    rows under the empty docId.  [search] does not check [k] either, it
    hands it to the index unchanged; as the index refuses a [k] below 1,
    [search] with such a [k] raises the error of the index search, before
    any store is touched. *)
Theorem C7_no_validation (f : DbFault) (content query : string) (k : Z)
    (w : World) :
  let chunks := _chunk_text content in
  index (add_document f "" content w).1.2 = with_vectors w chunks
  /\ (consistent w -> chunks <> [] -> Forall adaptable chunks ->
        let out := add_document NoFault "" content w in
        out.1.1 = Ret (Added (length chunks))
        /\ committed out.1.2
           = committed w
             ++ rows_from "" (Z.of_nat (length (committed w))) chunks)
  /\ (rejects_k_below_1 -> (k < 1)%Z ->
        search f query k w = (Raise IndexSearchError, w, [])).
Proof.
  cbv zeta. split; [apply add_document_index|]. split.
  - intros Hc Hne Hst.
    assert (Hok : (add_document NoFault "" content w).1.1
                  = Ret (Added (length (_chunk_text content))))
      by (by apply add_document_consistent_ok).
    split; [done|].
    by destruct (add_document_consistent "" content w Hc
                   (ex_intro _ _ Hok)) as [_ Hrows].
  - intros Hrej Hk. unfold search.
    cbv beta iota zeta delta [bind index_search]. by rewrite Hrej.
Qed.

End ValidationClaims.

(** ** Concrete runs on the in-memory stand-in *)

Section Runs.
Import Fake.

Example scenario_A :
  (search NoFault "what color is the sky" 1 w2).1.1
  = Ret [mkResult "doc1" "the sky is blue" 45%Z].
Proof. vm_compute. reflexivity. Qed.

Example scenario_C :
  (search NoFault "anything" 5 empty_world).1.1 = Ret [].
Proof. vm_compute. reflexivity. Qed.

(** C7, as stated, fails: [add_document] with the empty docId and the
    content "a" is not rejected; it returns normally, and one vector and one
    committed row under the empty docId are in the stores afterwards. *)
Lemma C7_validation_counterexample :
  let out := add_document NoFault "" "a" empty_world in
  out.1.1 = Ret (Added 1)
  /\ index out.1.2 = [(0%Z, [1%Z; 97%Z])]
  /\ index_file out.1.2 = Some [(0%Z, [1%Z; 97%Z])]
  /\ committed out.1.2 = [mkRow "" "a" 0].
Proof. vm_compute. repeat split; reflexivity. Qed.

(** C4: the code does not abort.  When the TRUNCATE of a reset fails, the
    error is caught and rolled back, the reset returns normally, and it goes
    on to remove the index file and to replace the index by an empty one,
    while the rows stay.  On the sample world with one document: the row
    with id 0 is left without a vector, and the next ingestion, which
    allocates id 0 again, fails on the UNIQUE constraint. *)
Theorem C4_reset_continues_after_failed_clear :
  (forall (C : Collaborators) (w : World),
     (reset (ExecuteFails 0) w).1.1 = Ret tt
     /\ (reset (ExecuteFails 0) w).1.2
        = mkWorld [] None (committed w) (committed w)
     /\ (reset (ExecuteFails 0) w).2 = [EvRollback] ++ file_removal w)
  /\ committed w1 = [mkRow "doc1" "the sky is blue" 0]
  /\ index w1 = [(0%Z, [15%Z; 116%Z])]
  /\ index_file w1 = Some [(0%Z, [15%Z; 116%Z])]
  /\ (let w' := (reset (ExecuteFails 0) w1).1.2 in
      index w' = []
      /\ index_file w' = None
      /\ committed w' = [mkRow "doc1" "the sky is blue" 0]
      /\ (add_document NoFault "doc2" "artificial intelligence" w').1.1
         = Raise PgUniqueViolation).
Proof.
  split.
  - intros C w. by destruct w as [idx [file|] com wrk].
  - vm_compute. repeat split; reflexivity.
Qed.

Lemma C5_chunk_count_witness :
  length (_chunk_text "a b c") = 1
  /\ _chunk_text "a b c" !! 0 = Some "a b c"%string.
Proof.
  destruct (C5_chunk_count "a b c") as (_ & Hlen & Hwin & _).
  split; [exact Hlen|].
  destruct (Hwin 0) as (Hj & _); [vm_compute; lia|exact Hj].
Defined.



(** C8, as stated, fails in its report: no count of added chunks is
    returned.  The answer of /add for the empty content, after which the
    index is empty, is the very answer given for a content of one chunk,
    after which the index holds one vector. *)
Lemma C8_added_count_counterexample :
  let r0 := Main.add_document NoFault "d1" "" (Some empty_world) in
  let r1 := Main.add_document NoFault "d1" "a" (Some empty_world) in
  r0.1.1 = Main.Respond
             (Main.mkStatusMessage "ok" "Document 'd1' added successfully.")
  /\ r1.1.1 = r0.1.1
  /\ (index <$> r0.1.2) = Some []
  /\ (index <$> r1.1.2) = Some [(0%Z, [1%Z; 97%Z])].
Proof. vm_compute. repeat split; reflexivity. Qed.

Lemma C6_search_order_and_drop_witness :
  let hits := [(0%Z, 45%Z); (1%Z, 653%Z); ((-1)%Z, FLT_MAX);
               ((-1)%Z, FLT_MAX); ((-1)%Z, FLT_MAX)] in
  knn (index w2) (encode "what color is the sky") 5 = Some hits
  /\ exists results,
       search NoFault "what color is the sky" 5 w2 = (Ret results, w2, [])
       /\ length results = 2
       /\ StronglySorted Z.le (score <$> results).
Proof.
  intros hits.
  assert (Hknn : knn (index w2) (encode "what color is the sky") 5 = Some hits)
    by (vm_compute; reflexivity).
  split; [exact Hknn|].
  destruct (C6_search_order_and_drop (H := collaborators) Z.le "what color is the sky" 5 w2 hits Hknn)
    as (results & Hsearch & Hkept & Hsorted).
  exists results. split; [exact Hsearch|]. split.
  - apply Forall2_length in Hkept. rewrite Hkept. vm_compute. reflexivity.
  - apply Hsorted. unfold hits. simpl.
    repeat constructor; vm_compute; discriminate.
Defined.

Lemma C1_vector_id_blocks_witness :
  let ops := [OpAdd NoFault "d1" "a"; OpAdd (ExecuteFails 0) "d2" "b";
              OpSearch NoFault "a" 1; OpAdd NoFault "d3" "c d"] in
  blocks_of_run ops empty_world = [[0%Z]; [2%Z]]
  /\ (forall v, v ∈ [0%Z] -> v ∉ [2%Z])
  /\ allocated (add_document (ExecuteFails 0) "d2" "b" w2).2 = [[2%Z]].
Proof.
  intros ops. destruct (C1_vector_id_blocks (H := collaborators))
    as [Hcall Hrun].
  split; [vm_compute; reflexivity|]. split.
  - assert (H01 : 0 < 1) by lia.
    exact (proj1 (Hrun ops empty_world 0 1 [0%Z] [2%Z] H01
                    eq_refl eq_refl)).
  - assert (Hne : _chunk_text "b" <> []) by (vm_compute; discriminate).
    exact (proj1 (Hcall (ExecuteFails 0) "d2" "b" w2 Hne)).
Defined.

Lemma C2_join_complete_witness :
  let docs := [("doc1", "the sky is blue");
               ("doc2", "artificial intelligence is a field")]%string in
  consistent empty_world
  /\ (ingest docs empty_world).1 = [Ret (Added 1); Ret (Added 1)]
  /\ (ingest docs empty_world).2 = w2
  /\ NoDup (index w2).*1
  /\ (forall v, v ∈ (index w2).*1 <-> v ∈ row_vector_id <$> committed w2).
Proof.
  intros docs.
  assert (Hc : consistent empty_world) by (repeat split; reflexivity).
  assert (Hrs : (ingest docs empty_world).1 = [Ret (Added 1); Ret (Added 1)])
    by (vm_compute; reflexivity).
  assert (Hret : Forall (fun r => exists o, r = Ret o) (ingest docs empty_world).1).
  { rewrite Hrs. repeat constructor; eexists; reflexivity. }
  destruct (C2_join_complete docs empty_world Hc Hret)
    as (Hnd & _ & Hiff & _).
  split; [exact Hc|]. split; [exact Hrs|]. split; [vm_compute; reflexivity|].
  split; [exact Hnd|exact Hiff].
Defined.

Lemma C9_reset_idempotent_witness :
  (reset NoFault w2).1.2 = empty_world
  /\ knn (index empty_world) (encode "anything") 5
     = Some (replicate 5 ((-1)%Z, FLT_MAX))
  /\ search NoFault "anything" 5 (reset NoFault w2).1.2
     = (Ret [], (reset NoFault w2).1.2, [])
  /\ _chunk_text "a b" <> []
  /\ storable "d" (_chunk_text "a b")
  /\ (add_document NoFault "d" "a b" (reset NoFault w2).1.2).1.1
     = Ret (Added 1)
  /\ (index (add_document NoFault "d" "a b" (reset NoFault w2).1.2).1.2).*1
     = [0%Z]
  /\ row_vector_id
       <$> committed (add_document NoFault "d" "a b" (reset NoFault w2).1.2).1.2
     = [0%Z].
Proof.
  destruct (C9_reset_idempotent w2) as (_ & Hempty & _ & _ & Hsearch & Hadd).
  assert (Hknn : knn (index (reset NoFault w2).1.2) (encode "anything") 5
                 = Some (replicate 5 ((-1)%Z, FLT_MAX)))
    by (vm_compute; reflexivity).
  assert (Hne : _chunk_text "a b" <> []) by (vm_compute; discriminate).
  assert (Hst : storable "d" (_chunk_text "a b"))
    by (apply storable_existsb; vm_compute; reflexivity).
  pose proof (Hadd "d" "a b" Hne) as Hcall. cbv zeta in Hcall.
  destruct Hcall as (_ & Hidx & Hok & Hret).
  split; [exact Hempty|]. split; [exact Hknn|].
  split; [exact (Hsearch "anything" 5%Z _ Hknn)|]. split; [exact Hne|].
  split; [exact Hst|]. split; [exact (Hok Hst)|]. split; [exact Hidx|].
  exact (proj1 (proj2 (Hret _ (Hok Hst)))).
Defined.

Lemma C7_no_validation_witness :
  consistent empty_world
  /\ _chunk_text "a" <> [] /\ Forall adaptable (_chunk_text "a")
  /\ committed (add_document NoFault "" "a" empty_world).1.2 = [mkRow "" "a" 0]
  /\ rejects_k_below_1
  /\ search NoFault "q" 0 w2 = (Raise IndexSearchError, w2, []).
Proof.
  assert (Hc : consistent empty_world) by (repeat split; reflexivity).
  assert (Hne : _chunk_text "a" <> []) by (vm_compute; discriminate).
  assert (Hst : Forall adaptable (_chunk_text "a")) by (repeat constructor).
  assert (Hrej : rejects_k_below_1).
  { intros entries q k Hk. cbn. unfold fake_knn. by rewrite bool_decide_true. }
  assert (Hk : (0 < 1)%Z) by lia.
  split; [exact Hc|]. split; [exact Hne|]. split; [exact Hst|].
  split; [exact (proj2 (proj1 (proj2 (C7_no_validation NoFault "a" "q" 0
                                        empty_world)) Hc Hne Hst))|].
  split; [exact Hrej|].
  exact (proj2 (proj2 (C7_no_validation NoFault "a" "q" 0 w2)) Hrej Hk).
Defined.

End Runs.

(** * Further properties *)

(** ** Tokens and chunks *)

Lemma isspace_space : Py.isspace " " = true.
Proof. reflexivity. Qed.

Lemma flush_word (word : list ascii) :
  word <> [] -> Forall not_space word ->
  Py.flush word = [string_of_list_ascii (rev word)]
  /\ is_token (string_of_list_ascii (rev word)).
Proof.
  intros Hne Hns. split; [by destruct word|]. split.
  - destruct word as [|c word]; [done|]. simpl.
    destruct (rev word); discriminate.
  - rewrite list_ascii_of_string_of_list_ascii.
    by apply List.Forall_rev.
Qed.

(** Every string [split] yields is a token. *)
Lemma split_from_tokens (text : string) :
  forall word, Forall not_space word ->
               Forall is_token (Py.split_from word text).
Proof.
  induction text as [|c text IH]; intros word Hword; simpl.
  - destruct word as [|c' word]; [constructor|].
    apply Forall_singleton. by apply (flush_word (c' :: word)).
  - destruct (Py.isspace c) eqn:Hc.
    + apply Forall_app. split; [|by apply IH].
      destruct word as [|c' word]; [constructor|].
      apply Forall_singleton. by apply (flush_word (c' :: word)).
    + apply IH. by constructor.
Qed.

Lemma split_tokens (text : string) : Forall is_token (Py.split text).
Proof. apply split_from_tokens. constructor. Qed.

(** Reading a whitespace-free string extends the word under construction. *)
Lemma split_from_append (p : string) :
  forall word rest,
    Forall not_space (list_ascii_of_string p) ->
    Py.split_from word (String.append p rest)
    = Py.split_from (rev (list_ascii_of_string p) ++ word) rest.
Proof.
  induction p as [|c p IH]; intros word rest Hp; [done|].
  simpl in *. apply Forall_cons in Hp as [Hc Hp].
  unfold not_space in Hc. rewrite Hc, IH by done.
  by rewrite <- app_assoc.
Qed.

Lemma split_from_whole (p : string) :
  forall word,
    Forall not_space (list_ascii_of_string p) ->
    Py.split_from word p = Py.flush (rev (list_ascii_of_string p) ++ word).
Proof.
  induction p as [|c p IH]; intros word Hp; [done|].
  simpl in *. apply Forall_cons in Hp as [Hc Hp].
  unfold not_space in Hc. rewrite Hc, IH by done.
  by rewrite <- app_assoc.
Qed.

Lemma flush_token (p : string) :
  is_token p -> Py.flush (rev (list_ascii_of_string p)) = [p].
Proof.
  intros [Hne Hns]. destruct p as [|c p]; [done|].
  destruct (flush_word (rev (list_ascii_of_string (String c p)))) as [-> _].
  - simpl. by destruct (rev (list_ascii_of_string p)).
  - by apply List.Forall_rev.
  - by rewrite rev_involutive, string_of_list_ascii_of_string.
Qed.

(** Splitting the join of tokens gives the tokens back. *)
Lemma split_join (tokens : list string) :
  Forall is_token tokens -> Py.split (Py.join " " tokens) = tokens.
Proof.
  unfold Py.split. induction tokens as [|p tokens IH]; intros Htok; [done|].
  apply Forall_cons in Htok as [Hp Htok].
  destruct tokens as [|q tokens].
  - cbn [Py.join]. rewrite split_from_whole by apply Hp.
    rewrite app_nil_r. by apply flush_token.
  - change (Py.join " " (p :: q :: tokens))
      with (String.append p (String " " (Py.join " " (q :: tokens)))).
    rewrite split_from_append by apply Hp.
    rewrite app_nil_r. cbn [Py.split_from]. rewrite isspace_space.
    rewrite flush_token by done. rewrite IH by done. reflexivity.
Qed.

(** [split] yields nothing exactly on blank texts. *)
Lemma split_from_nil (text : string) :
  forall word, Py.split_from word text = [] <-> word = [] /\ blank text.
Proof.
  unfold blank. induction text as [|c text IH]; intros word; simpl.
  - destruct word; split; try done. by intros [? _].
  - destruct (Py.isspace c) eqn:Hc.
    + split.
      * intros Happ. apply app_eq_nil in Happ as [Hw Hrest].
        apply IH in Hrest as [_ Hrest].
        split; [by destruct word|by constructor].
      * intros [-> Hall]. apply Forall_cons in Hall as [_ Hall].
        simpl. apply IH. by split.
    + rewrite IH. split; [by intros [? _]|].
      intros [_ Hall]. apply Forall_cons in Hall as [Hc' _]. congruence.
Qed.

Lemma stride_pos : 0 < stride.
Proof. unfold stride, CHUNK_SIZE, CHUNK_OVERLAP. lia. Qed.

Lemma ceil_div_lt (j T s : nat) : 0 < s -> j < ceil_div T s <-> j * s < T.
Proof.
  intros Hs. unfold ceil_div. split.
  - intros Hj. destruct (decide (j * s < T)) as [|Hge]; [done|].
    assert ((T + (s - 1)) / s < S j); [|lia].
    apply Nat.Div0.div_lt_upper_bound. nia.
  - intros Hj. assert (S j <= (T + (s - 1)) / s); [|lia].
    apply Nat.div_le_lower_bound; [lia|nia].
Qed.

Lemma chunk_text_lookup (text : string) (j : nat) (chunk : string) :
  _chunk_text text !! j = Some chunk
  <-> j * stride < length (Py.split text)
      /\ chunk = Py.join " " (window (Py.split text) j).
Proof.
  rewrite chunk_text_windows, list_lookup_fmap.
  rewrite <- (ceil_div_lt j _ stride stride_pos). split.
  - intros Hl. destruct (seq 0 _ !! j) as [j'|] eqn:Hj; [|done].
    apply lookup_seq in Hj as [-> Hj]. simpl in Hl. injection Hl as <-.
    done.
  - intros [Hj ->]. by rewrite lookup_seq_lt.
Qed.

Lemma window_tokens (text : string) (j : nat) :
  Forall is_token (window (Py.split text) j).
Proof. apply Forall_take, Forall_drop, split_tokens. Qed.

Lemma length_window (tokens : list string) (j : nat) :
  length (window tokens j)
  = Nat.min CHUNK_SIZE (length tokens - j * stride).
Proof. unfold window. by rewrite length_take, length_drop. Qed.

Lemma chunk_split (text : string) (j : nat) (chunk : string) :
  _chunk_text text !! j = Some chunk ->
  Py.split chunk = take 512 (drop (384 * j) (Py.split text))
  /\ Forall is_token (Py.split chunk)
  /\ 0 < length (Py.split chunk) <= 512
  /\ chunk <> ""%string
  /\ Py.join " " (Py.split chunk) = chunk.
Proof.
  intros Hl. apply chunk_text_lookup in Hl as [Hj ->].
  rewrite split_join by apply window_tokens.
  assert (Hlen : 0 < length (window (Py.split text) j) <= 512).
  { rewrite length_window. unfold CHUNK_SIZE. lia. }
  split; [|split; [apply window_tokens|split; [done|split; [|done]]]].
  - unfold window, CHUNK_SIZE. do 2 f_equal.
    change stride with 384. lia.
  - intros Hempty.
    assert (Hs : Py.split (Py.join " " (window (Py.split text) j)) = [])
      by (by rewrite Hempty).
    rewrite split_join in Hs by apply window_tokens.
    rewrite Hs in Hlen. simpl in Hlen. lia.
Qed.

(** X1. Splitting a chunk gives back exactly the tokens of its window of the
    text: at most 512 and at least one token, each free of whitespace; so a
    chunk is never the empty string, and joining its tokens by single spaces
    gives the chunk itself. *)
Theorem chunk_split_round_trip (text : string) (j : nat) (chunk : string) :
  _chunk_text text !! j = Some chunk ->
  Py.split chunk = take 512 (drop (384 * j) (Py.split text))
  /\ Forall is_token (Py.split chunk)
  /\ 0 < length (Py.split chunk) <= 512
  /\ chunk <> ""%string
  /\ Py.join " " (Py.split chunk) = chunk.
Proof. exact (chunk_split text j chunk). Qed.

(** X2. Two consecutive chunks overlap: what chunk j holds after its first
    384 tokens is what chunk j + 1 starts with, 128 tokens or fewer when the
    text ends earlier.  When the text ends within these 128 tokens, chunk
    j + 1 consists of them alone: it holds no token that chunk j lacks. *)
Theorem chunk_overlap (text : string) (j : nat) (c1 c2 : string) :
  _chunk_text text !! j = Some c1 ->
  _chunk_text text !! (S j) = Some c2 ->
  drop 384 (Py.split c1) = take 128 (Py.split c2)
  /\ length (take 128 (Py.split c2))
     = Nat.min 128 (length (Py.split text) - 384 * S j)
  /\ (length (Py.split text) <= 384 * S j + 128 ->
      Py.split c2 = drop 384 (Py.split c1)).
Proof.
  intros H1 H2.
  apply chunk_split in H1 as (-> & _).
  apply chunk_split in H2 as (-> & _).
  assert (Hov : drop 384 (take 512 (drop (384 * j) (Py.split text)))
                = take 128 (take 512 (drop (384 * S j) (Py.split text)))).
  { rewrite take_take. change (128 `min` 512) with 128.
    change 512 with (384 + 128) at 1.
    rewrite <- take_drop_commute, drop_drop. do 2 f_equal. lia. }
  split; [done|]. split.
  - rewrite take_take, length_take, length_drop. lia.
  - intros HT. rewrite Hov, take_take. change (128 `min` 512) with 128.
    rewrite !take_ge; [done| |]; rewrite length_drop; lia.
Qed.

Lemma concat_strides (s : nat) (n : nat) :
  forall (l : list string),
    0 < s -> length l <= n * s ->
    concat ((fun j => take s (drop (j * s) l)) <$> seq 0 n) = l.
Proof.
  induction n as [|n IH]; intros l Hs Hlen.
  - simpl in *. by destruct l; [|simpl in Hlen; lia].
  - cbn [seq fmap list_fmap concat]. rewrite <- fmap_S_seq.
    rewrite <- list_fmap_compose.
    rewrite (list_fmap_ext _ (fun j => take s (drop (j * s) (drop s l)))).
    + rewrite IH; [|done|rewrite length_drop; lia].
      simpl. apply take_drop.
    + intros _ j _. simpl. rewrite drop_drop. do 2 f_equal; lia.
Qed.

(** X3. No token is lost and none is reordered: the first 384 tokens of
    every chunk, put one after the other, are the tokens of the text. *)
Theorem chunks_cover_text (text : string) :
  concat ((fun chunk => take 384 (Py.split chunk)) <$> _chunk_text text)
  = Py.split text.
Proof.
  rewrite chunk_text_windows, <- list_fmap_compose.
  rewrite (list_fmap_ext _
             (fun j => take 384 (drop (j * 384) (Py.split text)))).
  - apply concat_strides; [lia|].
    change 384 with stride.
    destruct (decide (length (Py.split text)
                      <= ceil_div (length (Py.split text)) stride * stride))
      as [|Hgt]; [done|].
    assert (Hlt : ceil_div (length (Py.split text)) stride * stride
                  < length (Py.split text)) by lia.
    apply (ceil_div_lt _ _ stride stride_pos) in Hlt. lia.
  - intros _ j _. simpl.
    rewrite split_join by apply (window_tokens text j).
    unfold window. rewrite take_take.
    change (384 `min` CHUNK_SIZE) with 384. by change stride with 384.
Qed.

Lemma chunk_text_nil (text : string) : _chunk_text text = [] <-> blank text.
Proof.
  pose proof (split_from_nil text []) as Hsplit. fold (Py.split text) in Hsplit.
  split.
  - intros Hnil. apply Hsplit.
    destruct (Py.split text) as [|t ts] eqn:Hs; [done|].
    assert (Hl : _chunk_text text !! 0
                 = Some (Py.join " " (window (Py.split text) 0))).
    { apply chunk_text_lookup. rewrite Hs. simpl. split; [lia|done]. }
    by rewrite Hnil in Hl.
  - intros Hb. rewrite chunk_text_windows, (proj2 Hsplit); [done|by split].
Qed.

Section SkipClaims.
Context `{Collaborators}.

(** X4. [add_document] takes its early exit exactly for the contents that
    consist of whitespace only (the empty one included), whatever the docId
    and the state of the database; then nothing is touched.  For every other
    content at least one vector enters the index, also when the call fails. *)
Theorem add_document_skips_exactly_blank
    (f : DbFault) (doc_id content : string) (w : World) :
  (blank content -> add_document f doc_id content w = (Ret Skipped, w, []))
  /\ (~ blank content ->
      (add_document f doc_id content w).1.1 <> Ret Skipped
      /\ length (index w) < length (index (add_document f doc_id content w).1.2)).
Proof.
  split.
  - intros Hb. apply add_document_skip. by apply chunk_text_nil.
  - intros Hnb. assert (Hne : _chunk_text content <> [])
      by (by rewrite chunk_text_nil).
    destruct (add_document_ends f doc_id content w Hne)
      as (Hidx & _ & Hend).
    split.
    + destruct Hend as [-> | [e ->]]; done.
    + rewrite Hidx, length_with_vectors.
      destruct (_chunk_text content); simpl; [done|lia].
Qed.

End SkipClaims.

(** ** The UNIQUE constraint and ingestion *)

Section UniqueClaims.
Context `{Collaborators}.

Lemma rows_from_ids_ge (doc_id : string) (chunks : list string) :
  forall vid r, r ∈ rows_from doc_id vid chunks -> (vid <= row_vector_id r)%Z.
Proof.
  induction chunks as [|c chunks IH]; intros vid r Hr; simpl in Hr.
  - by apply elem_of_nil in Hr.
  - apply elem_of_cons in Hr as [->|Hr]; [simpl; lia|].
    apply IH in Hr. lia.
Qed.

(** Without a fault of the environment, and with strings psycopg2 accepts,
    the loop of inserts succeeds when none of its ids is stored, and
    otherwise stops at the first stored id with the error of the UNIQUE
    constraint. *)
Lemma insert_chunks_unique (doc_id : string) (s : Z) (n : nat)
    (chunks : list string) :
  forall i w,
    i + length chunks <= n ->
    storable doc_id chunks ->
    let rows := rows_from doc_id (s + Z.of_nat i) chunks in
    (Forall (fun r => row_vector_id r ∉ stored_ids w) rows ->
     insert_chunks NoFault doc_id (Py.arange s (s + Z.of_nat n)) i chunks w
     = (Ret tt,
        mkWorld (index w) (index_file w) (committed w) (working w ++ rows),
        EvInsert <$> rows))
    /\ (Exists (fun r => row_vector_id r ∈ stored_ids w) rows ->
        exists m,
          m < length chunks
          /\ insert_chunks NoFault doc_id (Py.arange s (s + Z.of_nat n)) i chunks w
             = (Raise PgUniqueViolation,
                mkWorld (index w) (index_file w) (committed w)
                        (working w ++ take m rows),
                EvInsert <$> take m rows)).
Proof.
  induction chunks as [|c chunks IH]; intros i w Hlen Hst; cbv zeta.
  - split.
    + intros _. simpl. unfold ret. by rewrite app_nil_r, world_eta.
    + intros Hex. by apply Exists_nil in Hex.
  - cbn [insert_chunks length rows_from] in *.
    apply storable_cons in Hst as [Hnul Hst].
    rewrite lookup_arange by lia.
    unfold bind, execute_insert.
    cbn [execute_fails row_doc_id row_chunk_text row_vector_id].
    rewrite Hnul. fold (stored_ids w).
    set (w1 := mkWorld (index w) (index_file w) (committed w)
                 (working w ++ [mkRow doc_id c (s + Z.of_nat i)])).
    assert (Hstored : forall r,
              r ∈ rows_from doc_id (s + Z.of_nat i + 1) chunks ->
              row_vector_id r ∈ stored_ids w1
              <-> row_vector_id r ∈ stored_ids w).
    { intros r Hr. apply rows_from_ids_ge in Hr.
      unfold stored_ids, w1. cbn [working].
      rewrite fmap_app, elem_of_app. cbn [fmap list_fmap row_vector_id].
      rewrite list_elem_of_singleton.
      split; [intros [?|?]; [done|lia]|by left]. }
    destruct (IH (S i) w1) as [IHok IHfail]; [lia|done|].
    replace (s + Z.of_nat (S i))%Z with (s + Z.of_nat i + 1)%Z
      in IHok, IHfail by lia.
    destruct (bool_decide_reflect
                ((s + Z.of_nat i)%Z ∈ stored_ids w)) as [Hin|Hnin].
    + split.
      * intros Hall. apply Forall_cons in Hall as [Hhd _]. done.
      * intros _. exists 0. split; [lia|].
        simpl. by rewrite app_nil_r, world_eta.
    + split.
      * intros Hall. apply Forall_cons in Hall as [_ Hall].
        rewrite IHok.
        -- subst w1. cbn [index index_file committed working fmap list_fmap].
           by rewrite <- app_assoc.
        -- apply Forall_forall. intros r Hr. rewrite (Hstored r Hr).
           rewrite Forall_forall in Hall. by apply Hall.
      * intros Hex. apply Exists_cons in Hex as [Hhd|Hex]; [done|].
        destruct IHfail as (m & Hm & ->).
        { apply Exists_exists in Hex as (r & Hr & Hin).
          apply Exists_exists. exists r. split; [done|].
          by apply (Hstored r Hr). }
        exists (S m). split; [lia|].
        subst w1. cbn [index index_file committed working fmap list_fmap take].
        by rewrite <- app_assoc.
Qed.

Lemma add_document_unique
    (doc_id content : string) (w : World) :
  let chunks := _chunk_text content in
  let start_id := Z.of_nat (length (index w)) in
  let block := Py.arange start_id (start_id + Z.of_nat (length chunks)) in
  let rows := rows_from doc_id start_id chunks in
  let out := add_document NoFault doc_id content w in
  chunks <> [] ->
  storable doc_id chunks ->
  ((forall v, v ∈ block -> v ∉ stored_ids w) ->
   out = (Ret (Added (length chunks)),
          mkWorld (with_vectors w chunks) (Some (with_vectors w chunks))
                  (working w ++ rows) (working w ++ rows),
          EvIndexAdd block :: (EvInsert <$> rows) ++ [EvCommit; EvWriteIndex]))
  /\ ((exists v, v ∈ block /\ v ∈ stored_ids w) ->
      exists m,
        m < length chunks
        /\ out = (Raise PgUniqueViolation,
                  mkWorld (with_vectors w chunks) (index_file w)
                          (committed w) (committed w),
                  EvIndexAdd block :: (EvInsert <$> take m rows)
                  ++ [EvRollback])).
Proof.
  cbv zeta. unfold add_document, with_vectors.
  generalize (_chunk_text content). intros chunks Hne Hst.
  rewrite bool_decide_eq_false_2 by done.
  cbv beta iota zeta delta [bind try_except_pg index_ntotal index_add_with_ids].
  match goal with
  | |- context [insert_chunks NoFault doc_id ?ids 0 chunks ?w1] =>
      destruct (insert_chunks_unique doc_id (Z.of_nat (length (index w)))
                  (length chunks) chunks 0 w1)
        as [Hok Hfail]; [simpl; lia|done|]
  end.
  replace (Z.of_nat (length (index w)) + Z.of_nat 0)%Z
    with (Z.of_nat (length (index w))) in Hok, Hfail by lia.
  unfold stored_ids in *. cbn [working] in Hok, Hfail.
  split.
  - intros Hfresh. rewrite !Hok.
    + cbn. by rewrite <- app_assoc.
    + apply Forall_forall. intros r Hr. apply Hfresh.
      rewrite <- (rows_from_vector_id doc_id chunks).
      by apply list_elem_of_fmap_2.
  - intros (v & Hv & Hin).
    destruct Hfail as (m & Hm & Hins).
    { rewrite <- (rows_from_vector_id doc_id chunks) in Hv.
      apply list_elem_of_fmap in Hv as (r & -> & Hr).
      apply Exists_exists. by exists r. }
    exists m. split; [done|]. by rewrite !Hins.
Qed.

(** X5. When the database raises no error of its own and psycopg2 accepts
    the strings of the document (none holds a NUL), [add_document] for a
    content with chunks succeeds exactly when none of the ids it allocates
    is the id of a stored row.  If one is, the call raises the violation of
    the UNIQUE constraint after the vectors entered the index: the inserts
    are rolled back, the committed rows and the index file stay as they
    were. *)
Theorem add_document_unique_constraint
    (doc_id content : string) (w : World) :
  let chunks := _chunk_text content in
  let start_id := Z.of_nat (length (index w)) in
  let block := Py.arange start_id (start_id + Z.of_nat (length chunks)) in
  let rows := rows_from doc_id start_id chunks in
  let out := add_document NoFault doc_id content w in
  chunks <> [] ->
  storable doc_id chunks ->
  ((forall v, v ∈ block -> v ∉ stored_ids w) ->
   out = (Ret (Added (length chunks)),
          mkWorld (with_vectors w chunks) (Some (with_vectors w chunks))
                  (working w ++ rows) (working w ++ rows),
          EvIndexAdd block :: (EvInsert <$> rows) ++ [EvCommit; EvWriteIndex]))
  /\ ((exists v, v ∈ block /\ v ∈ stored_ids w) ->
      exists m,
        m < length chunks
        /\ out = (Raise PgUniqueViolation,
                  mkWorld (with_vectors w chunks) (index_file w)
                          (committed w) (committed w),
                  EvIndexAdd block :: (EvInsert <$> take m rows)
                  ++ [EvRollback])).
Proof. exact (add_document_unique doc_id content w). Qed.

End UniqueClaims.

(** ** All paths of [search] *)

Section SearchPaths.
Context `{Collaborators}.

Lemma no_valid_id (hits : list (Z * Score)) :
  filter (fun vid : Z => vid ≠ (-1)%Z) hits.*1 = []
  <-> Forall (fun hit => hit.1 = (-1)%Z) hits.
Proof.
  induction hits as [|h hits IH]; [done|].
  rewrite fmap_cons, Forall_cons, <- IH.
  destruct (decide (h.1 = (-1)%Z)) as [Heq|Hne].
  - rewrite filter_cons_False by (intros ?; done). by split; [|intros [_ ?]].
  - rewrite filter_cons_True by done. split; [done|by intros [? _]].
Qed.

Lemma search_cases (f : DbFault) (query : string) (k : Z) (w : World)
    (hits : list (Z * Score)) :
  knn (index w) (encode query) k = Some hits ->
  (Forall (fun hit => hit.1 = (-1)%Z) hits ->
   search f query k w = (Ret [], w, []))
  /\ (~ Forall (fun hit => hit.1 = (-1)%Z) hits ->
      (execute_fails f 0 = true ->
       search f query k w
       = (Raise PgOperationalError,
          mkWorld (index w) (index_file w) (committed w) (committed w),
          [EvRollback]))
      /\ (execute_fails f 0 = false ->
          search f query k w
          = (Ret (assemble hits (fetched w hits)), w, []))).
Proof.
  intros Hknn. unfold search.
  cbv beta iota zeta delta [bind try_except_pg index_search ret raise
                            execute_select_in conn_rollback].
  rewrite Hknn. split.
  - intros Hall. apply no_valid_id in Hall. by rewrite Hall.
  - intros Hsome. rewrite <- no_valid_id in Hsome.
    rewrite bool_decide_eq_false_2 by done.
    split; intros ->; reflexivity.
Qed.

(** X6. [search] reaches the database only when the index returned an id
    other than the sentinel -1.  When every slot is -1, as on an empty
    index, it returns the empty list and touches nothing, whether or not the
    database works.  Otherwise a failing SELECT makes it raise the database
    error after a rollback, which discards what the connection's open
    transaction held; and a working SELECT gives the assembled results with
    no effect at all. *)
Theorem search_paths (f : DbFault) (query : string) (k : Z) (w : World)
    (hits : list (Z * Score)) :
  knn (index w) (encode query) k = Some hits ->
  (Forall (fun hit => hit.1 = (-1)%Z) hits ->
   search f query k w = (Ret [], w, []))
  /\ (~ Forall (fun hit => hit.1 = (-1)%Z) hits ->
      (execute_fails f 0 = true ->
       search f query k w
       = (Raise PgOperationalError,
          mkWorld (index w) (index_file w) (committed w) (committed w),
          [EvRollback]))
      /\ (execute_fails f 0 = false ->
          search f query k w
          = (Ret (assemble hits (fetched w hits)), w, []))).
Proof. exact (search_cases f query k w hits). Qed.

(** A normal return of [search] is the empty list or the assembled one. *)
Lemma search_returns (f : DbFault) (query : string) (k : Z) (w : World)
    (results : list SearchResult) :
  (search f query k w).1.1 = Ret results ->
  exists hits,
    knn (index w) (encode query) k = Some hits
    /\ (results = [] \/ results = assemble hits (fetched w hits)).
Proof.
  intros Hret.
  destruct (knn (index w) (encode query) k) as [hits|] eqn:Hknn.
  - exists hits. split; [done|].
    destruct (search_cases f query k w hits Hknn) as [Hnone Hsome].
    destruct (decide (Forall (fun hit : Z * Score => hit.1 = (-1)%Z) hits))
      as [Hall|Hnall].
    + rewrite (Hnone Hall) in Hret. left. by injection Hret.
    + destruct (Hsome Hnall) as [Hfail Hok].
      destruct (execute_fails f 0).
      * by rewrite Hfail in Hret.
      * rewrite Hok in Hret by done. right. by injection Hret.
  - unfold search in Hret.
    cbv beta iota zeta delta [bind index_search] in Hret.
    by rewrite Hknn in Hret.
Qed.

End SearchPaths.

(** ** Rows are backed by vectors, whatever fails *)

Section BackedClaims.
Context `{Collaborators}.

Lemma backed_empty : backed empty_world.
Proof.
  split; [done|]. split; [done|]. split; [constructor|].
  intros r Hr. by apply elem_of_nil in Hr.
Qed.

Lemma backed_row_id (w : World) (r : Row) :
  backed w -> r ∈ committed w ->
  (0 <= row_vector_id r < Z.of_nat (length (index w)))%Z.
Proof.
  intros (_ & Hids & _ & Hback) Hr.
  assert (Hin : row_vector_id r ∈ (index w).*1).
  { apply list_elem_of_fmap. exists (row_vector_id r, encode (row_chunk_text r)).
    split; [done|]. by apply Hback. }
  rewrite Hids in Hin. apply elem_of_arange in Hin. lia.
Qed.

Lemma backed_fresh (w : World) (n : nat) (v : Z) :
  backed w ->
  v ∈ Py.arange (Z.of_nat (length (index w)))
        (Z.of_nat (length (index w)) + Z.of_nat n) ->
  v ∉ stored_ids w.
Proof.
  intros Hb Hv Hin. apply elem_of_arange in Hv.
  unfold stored_ids in Hin. destruct Hb as (Hw & Hb).
  rewrite Hw in Hin. apply list_elem_of_fmap in Hin as (r & -> & Hr).
  pose proof (backed_row_id w r (conj Hw Hb) Hr). lia.
Qed.

Lemma backed_with_vectors (w : World) (chunks : list string) :
  backed w ->
  (with_vectors w chunks).*1
  = Py.arange 0 (0 + Z.of_nat (length (with_vectors w chunks))).
Proof.
  intros (_ & Hids & _). rewrite with_vectors_ids, length_with_vectors, Hids.
  rewrite Nat2Z.inj_add, Z.add_assoc.
  replace (0 + Z.of_nat (length (index w)) + Z.of_nat (length chunks))%Z
    with (0 + Z.of_nat (length (index w) + length chunks))%Z by lia.
  by rewrite arange_app.
Qed.

Lemma backed_add_document (f : DbFault) (doc_id content : string) (w : World) :
  backed w -> storable doc_id (_chunk_text content) ->
  backed (add_document f doc_id content w).1.2.
Proof.
  intros Hb Hst.
  destruct (decide (_chunk_text content = [])) as [Hnil|Hne].
  { by rewrite add_document_skip. }
  pose proof (backed_with_vectors w (_chunk_text content) Hb) as Hids'.
  pose proof Hb as (Hw & Hids & Hnd & Hback).
  assert (Hkeep : forall r, r ∈ committed w ->
            (row_vector_id r, encode (row_chunk_text r))
            ∈ with_vectors w (_chunk_text content)).
  { intros r Hr. unfold with_vectors. apply elem_of_app. left. by apply Hback. }
  assert (Hgrown : backed
            (mkWorld (with_vectors w (_chunk_text content)) (index_file w)
               (working w
                ++ rows_from doc_id (Z.of_nat (length (index w)))
                     (_chunk_text content))
               (working w
                ++ rows_from doc_id (Z.of_nat (length (index w)))
                     (_chunk_text content)))).
  { split; [done|]. split; [done|]. cbn [committed index]. rewrite Hw.
    split.
    - rewrite fmap_app. apply NoDup_app. split; [done|]. split.
      + intros v Hv Hv'. rewrite rows_from_vector_id in Hv'.
        apply (backed_fresh w _ v Hb Hv').
        unfold stored_ids. by rewrite Hw.
      + rewrite rows_from_vector_id. apply NoDup_arange.
    - intros r Hr. apply elem_of_app in Hr as [Hr|Hr]; [by apply Hkeep|].
      unfold with_vectors. apply elem_of_app. right.
      rewrite <- (rows_from_entries doc_id).
      by apply (list_elem_of_fmap_2
                  (fun r => (row_vector_id r, encode (row_chunk_text r)))). }
  destruct (add_document_cases f doc_id content w Hne)
    as [[_ ->] | [(e & m & _ & _ & ->)
                 | [(m & _ & Hns & _) | [_ ->]]]]; cbn [fst snd].
  - destruct Hgrown as (? & ? & ? & ?). by repeat split.
  - split; [done|]. split; [done|]. by split.
  - done.
  - exact Hgrown.
Qed.

Lemma backed_search (f : DbFault) (query : string) (k : Z) (w : World) :
  backed w -> backed (search f query k w).1.2.
Proof.
  intros Hb. destruct (search_frame f query k w) as [r [-> | [-> _]]];
    [done|].
  destruct Hb as (? & ? & ? & ?). by repeat split.
Qed.

Lemma backed_run (ops : list Op) :
  forall w, backed w -> Forall storable_op ops -> backed (run ops w).
Proof.
  induction ops as [|[f d c|f q k] ops IH]; intros w Hb Hst; [done| |];
    apply Forall_cons in Hst as [Hop Hst];
    cbn [run]; apply IH; try done;
    [by apply backed_add_document|by apply backed_search].
Qed.

(** X7. Failures of the environment do not corrupt the stores for later
    calls.  From stores in which every row is backed by a vector (such as
    the empty ones), after any sequence of searches and of ingestions of
    documents whose strings psycopg2 accepts, whichever of their calls to
    the database or of their writes of the index file failed, every row is
    still backed by a vector; and the next such ingestion that meets no
    fault succeeds, with the block of ids that starts at the index's count,
    and commits exactly its rows. *)
Theorem failures_leave_ingestion_working
    (ops : list Op) (w0 : World) (doc_id content : string) :
  let w := run ops w0 in
  let chunks := _chunk_text content in
  let out := add_document NoFault doc_id content w in
  backed w0 ->
  Forall storable_op ops ->
  backed w
  /\ length (committed w) <= length (index w)
  /\ (chunks <> [] -> storable doc_id chunks ->
      out.1.1 = Ret (Added (length chunks))
      /\ committed out.1.2
         = committed w
           ++ rows_from doc_id (Z.of_nat (length (index w))) chunks
      /\ index_file out.1.2 = Some (index out.1.2)).
Proof.
  intros w chunks out Hb0 Hops.
  pose proof (backed_run ops w0 Hb0 Hops) as Hb. fold w in Hb.
  split; [done|]. split.
  - pose proof Hb as (_ & _ & Hnd & _).
    rewrite <- (length_fmap row_vector_id).
    rewrite <- (length_arange 0 (length (index w))).
    apply submseteq_length, NoDup_submseteq; [done|].
    intros v Hv. apply list_elem_of_fmap in Hv as (r & -> & Hr).
    pose proof (backed_row_id w r Hb Hr). apply elem_of_arange. lia.
  - intros Hne Hst.
    destruct (add_document_unique doc_id content w Hne Hst)
      as [Hok _].
    subst out. rewrite Hok by (intros v Hv; by eapply backed_fresh).
    cbn [fst snd committed index index_file].
    destruct Hb as (-> & _). done.
Qed.

(** X8. In stores where every row is backed by a vector, every result a
    search returns comes from a hit of the index on the id of a committed
    row: it carries that row's docId and text and that hit's score, and the
    index holds the embedding of the text under that id. *)
Theorem search_results_are_backed
    (f : DbFault) (query : string) (k : Z) (w : World)
    (results : list SearchResult) (res : SearchResult) :
  backed w ->
  (search f query k w).1.1 = Ret results ->
  res ∈ results ->
  exists hits hit row,
    knn (index w) (encode query) k = Some hits
    /\ hit ∈ hits /\ row ∈ committed w
    /\ row_vector_id row = hit.1 /\ hit.1 ≠ (-1)%Z
    /\ res = mkResult (row_doc_id row) (row_chunk_text row) hit.2
    /\ (hit.1, encode (chunk_text res)) ∈ index w.
Proof.
  intros Hb Hret Hres.
  destruct (search_returns f query k w results Hret)
    as (hits & Hknn & [-> | ->]); [by apply elem_of_nil in Hres|].
  unfold assemble in Hres. apply list_elem_of_omap in Hres as (hit & Hhit & Hf).
  destruct (fetched w hits !! hit.1) as [row|] eqn:Hl; [|done].
  simpl in Hf. injection Hf as <-.
  pose proof (proj1 (fetched_is_Some w hits hit Hhit) (ex_intro _ row Hl))
    as [Hne _].
  apply fetched_Some in Hl as [Hrow Hid].
  pose proof Hb as (Hw & _ & _ & Hback). rewrite Hw in Hrow.
  exists hits, hit, row. repeat split; try done.
  cbn [chunk_text]. rewrite <- Hid. by apply Hback.
Qed.

End BackedClaims.

(** ** A new manager over the same stores *)

Section RestartClaims.
Context `{Collaborators}.

Lemma init_ok (w : World) :
  __init__ false NoFault w
  = (Ret tt,
     mkWorld (persisted_index w) (index_file w) (committed w) (committed w),
     [EvCommit]).
Proof. by destruct w as [idx [file|] com wrk]. Qed.



(** X10. What a restart finds after a failed ingestion.  Let memory and
    stores coincide before [add_document], and let the call raise; the
    vectors of the document are in the index then.  If the error is a
    database error or the [ValueError] of a NUL, a manager constructed
    afterwards starts in the world from before the call: the vectors are
    gone, and so is what the call left in the open transaction.  If it is
    the error of the write of the index file, the rows of the document are
    committed while the file is the old one: the new manager starts with
    these rows and without their vectors. *)
Theorem restart_after_failed_ingestion
    (f : DbFault) (doc_id content : string) (w : World) (e : Exn) :
  let out := add_document f doc_id content w in
  let rows :=
    rows_from doc_id (Z.of_nat (length (index w))) (_chunk_text content) in
  durable w ->
  out.1.1 = Raise e ->
  index out.1.2 = with_vectors w (_chunk_text content)
  /\ index w ≠ index out.1.2
  /\ (e ≠ IndexWriteError ->
      __init__ false NoFault out.1.2 = (Ret tt, w, [EvCommit]))
  /\ (e = IndexWriteError ->
      rows ≠ []
      /\ __init__ false NoFault out.1.2
         = (Ret tt,
            mkWorld (index w) (index_file w)
                    (committed w ++ rows) (committed w ++ rows),
            [EvCommit])).
Proof.
  intros out rows [Hw Hidx] Hraise. subst out rows.
  destruct (decide (_chunk_text content = [])) as [Hnil|Hne].
  { by rewrite add_document_skip in Hraise. }
  assert (Hgrow : index w ≠ with_vectors w (_chunk_text content)).
  { intros Heq. apply (f_equal length) in Heq.
    rewrite length_with_vectors in Heq.
    destruct (_chunk_text content); [done|simpl in Heq; lia]. }
  assert (Hrows : rows_from doc_id (Z.of_nat (length (index w)))
                    (_chunk_text content) ≠ []).
  { intros Heq. apply (f_equal length) in Heq.
    rewrite length_rows_from in Heq.
    destruct (_chunk_text content); [done|simpl in Heq; lia]. }
  destruct (add_document_cases f doc_id content w Hne)
    as [[_ Hok] | [(e' & m & He' & _ & Hfail)
                  | [(m & _ & _ & Hval) | [_ Hwr]]]].
  - by rewrite Hok in Hraise.
  - rewrite Hfail in Hraise |- *. cbn [fst snd index] in *.
    injection Hraise as <-.
    split; [done|]. split; [done|]. split; [|by intros ->].
    intros _. rewrite init_ok. unfold persisted_index in *.
    destruct w as [idx file com wrk]. cbn in *. by subst.
  - rewrite Hval in Hraise |- *. cbn [fst snd index] in *.
    injection Hraise as <-.
    split; [done|]. split; [done|]. split; [|done].
    intros _. rewrite init_ok. unfold persisted_index in *.
    destruct w as [idx file com wrk]. cbn in *. by subst.
  - rewrite Hwr in Hraise |- *. cbn [fst snd index] in *.
    injection Hraise as <-.
    split; [done|]. split; [done|]. split; [done|].
    intros _. split; [done|]. rewrite init_ok. unfold persisted_index in *.
    destruct w as [idx file com wrk]. cbn in *. by subst.
Qed.

(** X11. The construction of a manager fails without loading an index when
    the connection cannot be opened or the table cannot be created: the
    error is propagated, the index file and the committed rows are left as
    they were, and nothing is written. *)
Theorem init_failure (connect_fails : bool) (f : DbFault) (w : World) :
  connect_fails = true \/ f = ExecuteFails 0 \/ f = CommitFails ->
  let out := __init__ connect_fails f w in
  out.1.1 = Raise PgOperationalError
  /\ index out.1.2 = index w
  /\ index_file out.1.2 = index_file w
  /\ committed out.1.2 = committed w
  /\ (out.2 = [] \/ out.2 = [EvRollback]).
Proof.
  intros Hfail. destruct connect_fails.
  - cbv zeta. cbn. repeat split; auto.
  - destruct Hfail as [?|[-> | ->]]; [done| |];
      destruct w as [idx [file|] com wrk]; cbn; repeat split; auto.
Qed.

End RestartClaims.

(** ** Reset under faults *)

Section ResetFaultClaims.
Context `{Collaborators}.

(** X12. A clear that failed and was rolled back does not stop [reset].
    Whenever the rollback of the except block has run, the TRUNCATE
    statement or the commit had failed, and [reset] goes on and returns
    normally: the index is empty, the index file is gone and no transaction
    is open, while all rows are still in the table.  When the TRUNCATE and
    the commit go through, no rollback runs and the rows are gone as well. *)
Theorem reset_after_failed_clear (f : DbFault) (w : World) :
  let out := reset f w in
  (EvRollback ∈ out.2 ->
   execute_fails f 0 || commit_fails f = true
   /\ out.1.1 = Ret tt
   /\ out.1.2 = mkWorld [] None (committed w) (committed w))
  /\ (execute_fails f 0 || commit_fails f = false ->
      out.1.1 = Ret tt /\ (EvRollback ∉ out.2) /\ out.1.2 = empty_world).
Proof.
  assert (Hno : forall t : list Event,
            t = [EvTruncate; EvCommit] ++ file_removal w -> EvRollback ∉ t).
  { intros t ->. destruct w as [idx [file|] com wrk]; cbn; intros Hin;
      repeat (apply elem_of_cons in Hin as [?|Hin]; [done|]);
      by apply elem_of_nil in Hin. }
  cbv zeta. destruct f as [|[|i]| |].
  - rewrite reset_ok. cbn [fst snd]. split; [intros Hin; by destruct (Hno _ eq_refl Hin)|by eauto].
  - destruct (reset_failed (ExecuteFails 0) w) as [t ->]; [by left|]. by split.
  - change (reset (ExecuteFails (S i)) w) with (reset NoFault w).
    rewrite reset_ok. cbn [fst snd]. split; [intros Hin; by destruct (Hno _ eq_refl Hin)|by eauto].
  - destruct (reset_failed CommitFails w) as [t ->]; [by right|]. by split.
  - change (reset WriteIndexFails w) with (reset NoFault w).
    rewrite reset_ok. cbn [fst snd]. split; [intros Hin; by destruct (Hno _ eq_refl Hin)|by eauto].
Qed.

(** X13. After a reset that failed to clear a table whose rows carry the ids
    0, 1, 2, ..., an ingestion that meets no fault, of a document with
    chunks whose strings psycopg2 accepts, fails: it allocates id 0 again
    and runs into the UNIQUE constraint.  Nothing is committed, yet the
    vectors stay in the index, so that the count from which later ids are
    allocated has advanced. *)
Theorem ingestion_after_failed_reset
    (f : DbFault) (doc_id content : string) (w : World) :
  let w' := (reset f w).1.2 in
  let chunks := _chunk_text content in
  let out := add_document NoFault doc_id content w' in
  consistent w -> committed w <> [] ->
  f = ExecuteFails 0 \/ f = CommitFails ->
  chunks <> [] ->
  storable doc_id chunks ->
  out.1.1 = Raise PgUniqueViolation
  /\ committed out.1.2 = committed w
  /\ index_file out.1.2 = None
  /\ length (index out.1.2) = length chunks.
Proof.
  intros w' chunks out (Hw & Hidx & Hids) Hrows Hf Hne Hst.
  assert (Hw' : w' = mkWorld [] None (committed w) (committed w)).
  { subst w'. destruct Hf as [-> | ->];
      by destruct w as [idx [file|] com wrk]. }
  destruct (add_document_unique doc_id content w' Hne Hst)
    as [_ Hfail].
  destruct Hfail as (m & Hm & Hout).
  { exists 0%Z. rewrite Hw'. unfold stored_ids. cbn [index working length].
    split.
    - apply elem_of_arange. fold chunks.
      destruct chunks; [done|simpl; lia].
    - rewrite Hids. apply elem_of_arange.
      destruct (committed w); [done|simpl; lia]. }
  subst out. rewrite Hout. cbn [fst snd committed index index_file].
  rewrite length_with_vectors. rewrite Hw'. by cbn.
Qed.

End ResetFaultClaims.

(** ** The endpoints *)

Section EndpointClaims.
Context `{Collaborators}.

(** X14. POST /add never lets an exception escape.  With a manager in place
    it answers 200 exactly when the manager's call returned, and this
    includes a blank content, for which the answer says the document was
    added although nothing was stored.  Otherwise it answers 500 with the
    manager's exception as cause; the document's vectors are in the index
    then and the index file is unchanged.  The committed rows are unchanged
    too, unless the exception is that of the write of the index file: then
    the rows of the document are committed.  In all cases the stores are as
    the manager's call left them. *)
Theorem add_endpoint_replies
    (f : DbFault) (doc_id content : string) (w : World) :
  let out := Main.add_document f doc_id content (Some w) in
  let chunks := _chunk_text content in
  let rows := rows_from doc_id (Z.of_nat (length (index w))) chunks in
  out.1.2 = Some (add_document f doc_id content w).1.2
  /\ out.2 = (add_document f doc_id content w).2
  /\ match out.1.1 with
     | Main.Respond body =>
         body = Main.mkStatusMessage "ok"
                  (String.append "Document '"
                     (String.append doc_id "' added successfully."))
         /\ exists o, (add_document f doc_id content w).1.1 = Ret o
     | Main.HTTPException status_code detail cause =>
         status_code = 500
         /\ detail = "Failed to add document: "%string
         /\ chunks <> []
         /\ (exists e, cause = Some e
                       /\ (add_document f doc_id content w).1.1 = Raise e)
         /\ (forall w', out.1.2 = Some w' ->
               index w' = with_vectors w chunks
               /\ index_file w' = index_file w
               /\ committed w'
                  = match cause with
                    | Some IndexWriteError => working w ++ rows
                    | _ => committed w
                    end)
     | Main.Unhandled _ => False
     end
  /\ (blank content ->
      out = (Main.Respond
               (Main.mkStatusMessage "ok"
                  (String.append "Document '"
                     (String.append doc_id "' added successfully."))),
             Some w, [])).
Proof.
  cbv zeta. unfold Main.add_document.
  destruct (decide (_chunk_text content = [])) as [Hnil|Hne].
  - rewrite add_document_skip by done. cbn.
    split; [done|]. split; [done|]. split; [split; [done|by eexists]|done].
  - assert (Hnb : blank content -> False)
      by (intros Hb; by apply chunk_text_nil in Hb).
    destruct (add_document_cases f doc_id content w Hne)
      as [[_ ->] | [(e & m & He & _ & ->)
                   | [(m & _ & _ & ->) | [_ ->]]]]; cbn [fst snd].
    + split; [done|]. split; [done|]. split; [split; [done|by eexists]|done].
    + split; [done|]. split; [done|]. split; [|done].
      split; [done|]. split; [done|]. split; [done|].
      split; [by exists e|]. intros w' [= <-]. cbn.
      split; [done|]. split; [done|]. by destruct e.
    + split; [done|]. split; [done|]. split; [|done].
      split; [done|]. split; [done|]. split; [done|].
      split; [by eexists|]. by intros w' [= <-].
    + split; [done|]. split; [done|]. split; [|done].
      split; [done|]. split; [done|]. split; [done|].
      split; [by eexists|]. by intros w' [= <-].
Qed.

(** X15. POST /reset reports success after a failed clear.  With a manager
    in place, whenever the rollback of the manager's except block has run,
    that is, the TRUNCATE statement or the commit of the reset had failed
    and was rolled back, the endpoint answers 200 "Service state has been
    reset."; its 500 branch is not taken.  The index is empty and the index
    file is gone afterwards, while all rows are still in the table. *)
Theorem reset_endpoint_after_failed_clear (f : DbFault) (w : World) :
  let out := Main.reset_state f (Some w) in
  EvRollback ∈ out.2 ->
  execute_fails f 0 || commit_fails f = true
  /\ out.1.1
     = Main.Respond (Main.mkStatusMessage "ok" "Service state has been reset.")
  /\ out.1.2 = Some (mkWorld [] None (committed w) (committed w)).
Proof.
  cbv zeta. unfold Main.reset_state.
  destruct (execute_fails f 0 || commit_fails f) eqn:Hf.
  - intros _. split; [done|].
    assert (Hcase : f = ExecuteFails 0 \/ f = CommitFails).
    { destruct f as [|[|i]| |]; try discriminate Hf; auto. }
    by destruct (reset_failed f w Hcase) as [t ->].
  - intros Hin. exfalso.
    assert (Hok : reset f w = reset NoFault w)
      by (by destruct f as [|[|i]| |]).
    rewrite Hok, reset_ok in Hin. cbn [fst snd] in Hin.
    destruct w as [idx [file|] com wrk]; cbn in Hin;
      repeat (apply elem_of_cons in Hin as [?|Hin]; [done|]);
      by apply elem_of_nil in Hin.
Qed.

(** X16. Reset, add, search, with no fault: after POST /reset and POST /add
    of a document with chunks whose strings psycopg2 accepts, whatever the
    stores held before, both
    answered 200, and every POST /search whose index search returns answers
    200 and touches nothing; each of its results carries the document's
    docId and the text of one of its chunks, and every hit on the id of
    chunk number j, which is j, yields the result with that chunk's text and
    the hit's score. *)
Theorem reset_add_search
    (w : World) (docId content query : string) (k : Z)
    (hits : list (Z * Score)) :
  let chunks := _chunk_text content in
  let r1 := Main.reset_state NoFault (Some w) in
  let r2 := Main.add_document NoFault docId content r1.1.2 in
  let r3 := Main.search_vector NoFault query k r2.1.2 in
  chunks <> [] ->
  storable docId chunks ->
  knn (with_vectors empty_world chunks) (encode query) k = Some hits ->
  r1.1.2 = Some empty_world
  /\ (exists body, r2.1.1 = Main.Respond body)
  /\ (exists w2, r2.1.2 = Some w2
        /\ index w2 = with_vectors empty_world chunks
        /\ committed w2 = rows_from docId 0 chunks)
  /\ exists results,
       r3 = (Main.Respond results, r2.1.2, [])
       /\ (forall res, res ∈ results ->
             doc_id res = docId
             /\ exists j, chunks !! j = Some (chunk_text res))
       /\ (forall j chunk s,
             chunks !! j = Some chunk -> (Z.of_nat j, s) ∈ hits ->
             mkResult docId chunk s ∈ results).
Proof.
  intros chunks r1 r2 r3 Hne Hst Hknn.
  assert (H1 : r1 = (Main.Respond
                       (Main.mkStatusMessage "ok" "Service state has been reset."),
                     Some empty_world, [EvTruncate; EvCommit] ++ file_removal w)).
  { subst r1. unfold Main.reset_state. by rewrite reset_ok. }
  subst r3 r2. rewrite H1. cbn [fst snd]. unfold Main.add_document.
  rewrite (add_document_ok docId content empty_world Hne Hst) by constructor.
  cbn [fst snd working empty_world app index length]. fold chunks.
  change (Z.of_nat 0) with 0%Z.
  set (w2 := mkWorld (with_vectors empty_world chunks)
               (Some (with_vectors empty_world chunks))
               (rows_from docId 0%Z chunks) (rows_from docId 0%Z chunks)).
  split; [done|]. split; [by eexists|]. split; [by exists w2|].
  exists (assemble hits (fetched w2 hits)). unfold Main.search_vector.
  rewrite (search_ok query k w2 hits Hknn). split; [done|]. split.
  - intros res Hres. unfold assemble in Hres.
    apply list_elem_of_omap in Hres as (hit & Hhit & Hf).
    destruct (fetched w2 hits !! hit.1) as [row|] eqn:Hl; [|done].
    simpl in Hf. injection Hf as <-.
    apply fetched_Some in Hl as [Hrow _]. cbn [working w2] in Hrow.
    apply list_elem_of_lookup in Hrow as [j Hj].
    assert (Hjlt : j < length chunks).
    { apply lookup_lt_Some in Hj. by rewrite length_rows_from in Hj. }
    destruct (lookup_lt_is_Some_2 chunks j Hjlt) as [chunk Hchunk].
    rewrite (rows_from_lookup docId chunks 0 j chunk Hchunk) in Hj.
    injection Hj as <-. cbn. split; [done|by exists j].
  - intros j chunk s Hchunk Hhit.
    assert (Hc2 : consistent w2).
    { assert (Hok : exists o,
                (add_document NoFault docId content empty_world).1.1 = Ret o).
      { rewrite (add_document_ok docId content empty_world Hne Hst)
          by constructor. by eexists. }
      destruct (add_document_consistent docId content empty_world
                  consistent_empty Hok) as (Hc & _).
      rewrite (add_document_ok docId content empty_world Hne Hst) in Hc
        by constructor. exact Hc. }
    destruct (consistent_hit w2 (mkRow docId chunk (Z.of_nat j)) query k hits s
                Hc2) as (results & Hs & Hin); [|done|done|].
    + cbn [committed w2]. eapply list_elem_of_lookup_2.
      rewrite (rows_from_lookup docId chunks 0 j chunk Hchunk).
      do 2 f_equal.
    + rewrite (search_ok query k w2 hits Hknn) in Hs. by injection Hs as <-.
Qed.

End EndpointClaims.

(** ** The client's wait for the server *)

Section WaitClaims.
Import TestScript.

Lemma wait_loop_spec (get : nat -> GetOutcome) (remaining : nat) :
  forall i,
    let out := wait_loop remaining i get in
    out.2 <= remaining
    /\ out.1.2 = delay * connection_errors out.2 i get
    /\ (out.1.1 = true ->
        0 < out.2
        /\ get (i + out.2 - 1) = Response 200
        /\ forall j, j < out.2 - 1 -> get (i + j) <> Response 200)
    /\ (out.1.1 = false ->
        out.2 = remaining
        /\ forall j, j < remaining -> get (i + j) <> Response 200).
Proof.
  induction remaining as [|remaining IH]; intros i; cbv zeta.
  - cbn. repeat split; try done; try lia.
  - cbn [wait_loop]. specialize (IH (S i)). cbv zeta in IH.
    destruct (get i) as [code|] eqn:Hget.
    + destruct (Nat.eqb_spec code 200) as [->|Hcode].
      * cbn. rewrite ?Hget. repeat split; try done; try lia.
        all: try (by replace (i + 1 - 1) with i by lia).
        all: try (intros j Hj; lia).
      * destruct (wait_loop remaining (S i) get) as [[r slept] sent].
        cbn [fst snd] in *. destruct IH as (Hle & Hslept & Htrue & Hfalse).
        split; [lia|]. split; [by rewrite Hslept; cbn; rewrite Hget|].
        split.
        -- intros Hr. destruct (Htrue Hr) as (Hpos & Hok & Hbefore).
           split; [lia|]. split.
           ++ by replace (i + S sent - 1) with (S i + sent - 1) by lia.
           ++ intros j Hj. destruct j as [|j].
              ** rewrite Nat.add_0_r, Hget. congruence.
              ** replace (i + S j) with (S i + j) by lia.
                 apply Hbefore. lia.
        -- intros Hr. destruct (Hfalse Hr) as (-> & Hnone).
           split; [done|]. intros j Hj. destruct j as [|j].
           ++ rewrite Nat.add_0_r, Hget. congruence.
           ++ replace (i + S j) with (S i + j) by lia. apply Hnone. lia.
    + destruct (wait_loop remaining (S i) get) as [[r slept] sent].
      cbn [fst snd] in *. destruct IH as (Hle & Hslept & Htrue & Hfalse).
      split; [lia|]. split.
      { rewrite Hslept. cbn [connection_errors]. rewrite Hget. lia. }
      split.
      * intros Hr. destruct (Htrue Hr) as (Hpos & Hok & Hbefore).
        split; [lia|]. split.
        -- by replace (i + S sent - 1) with (S i + sent - 1) by lia.
        -- intros j Hj. destruct j as [|j].
           ++ rewrite Nat.add_0_r, Hget. congruence.
           ++ replace (i + S j) with (S i + j) by lia. apply Hbefore. lia.
      * intros Hr. destruct (Hfalse Hr) as (-> & Hnone).
        split; [done|]. intros j Hj. destruct j as [|j].
        -- rewrite Nat.add_0_r, Hget. congruence.
        -- replace (i + S j) with (S i + j) by lia. apply Hnone. lia.
Qed.

(** X17. [wait_for_server] sends at most five requests and sleeps two
    seconds after each connection error and not at all after an answer with
    another status than 200, so at most ten seconds in all.  It returns
    True exactly when one of the first five requests is answered with 200,
    and then stops at the first such answer; it returns False after five
    requests none of which was answered with 200. *)
Theorem wait_for_server_spec (get : nat -> GetOutcome) :
  let out := wait_for_server get in
  out.2 <= 5
  /\ out.1.2 = 2 * connection_errors out.2 0 get
  /\ out.1.2 <= 10
  /\ (out.1.1 = true <-> exists i, i < 5 /\ get i = Response 200)
  /\ (out.1.1 = true ->
      get (out.2 - 1) = Response 200
      /\ forall j, j < out.2 - 1 -> get j <> Response 200)
  /\ (out.1.1 = false -> out.2 = 5).
Proof.
  cbv zeta. unfold wait_for_server.
  pose proof (wait_loop_spec get retries 0) as Hspec. cbv zeta in Hspec.
  change retries with 5 in *. change delay with 2 in *.
  destruct (wait_loop 5 0 get) as [[r slept] sent]. cbn [fst snd] in *.
  destruct Hspec as (Hle & Hslept & Htrue & Hfalse).
  assert (Herr : connection_errors sent 0 get <= sent).
  { clear. generalize 0. induction sent as [|sent IH]; intros i; [done|].
    cbn. specialize (IH (S i)). destruct (get i); lia. }
  split; [done|]. split; [done|]. split; [lia|]. split; [|split].
  - split.
    + intros Hr. destruct (Htrue Hr) as (Hpos & Hok & _).
      exists (sent - 1). split; [lia|]. by rewrite Nat.add_0_l in Hok.
    + intros (i & Hi & Hok). destruct r; [done|].
      destruct (Hfalse eq_refl) as (_ & Hnone). by destruct (Hnone i Hi).
  - intros Hr. destruct (Htrue Hr) as (_ & Hok & Hbefore).
    split; [by rewrite Nat.add_0_l in Hok|].
    intros j Hj. by apply (Hbefore j Hj).
  - intros Hr. by destruct (Hfalse Hr).
Qed.

End WaitClaims.

(** ** Further concrete runs on the in-memory stand-in *)

Section FurtherRuns.
Import Fake.

Lemma chunk_split_round_trip_witness :
  _chunk_text "  the sky	is blue " !! 0 = Some "the sky is blue"%string
  /\ Py.split "the sky is blue" = ["the"; "sky"; "is"; "blue"]%string.
Proof.
  assert (Hl : _chunk_text "  the sky	is blue " !! 0
               = Some "the sky is blue"%string) by (vm_compute; reflexivity).
  split; [exact Hl|].
  destruct (chunk_split_round_trip _ _ _ Hl) as (Hs & _).
  rewrite Hs. vm_compute. reflexivity.
Defined.

Lemma chunk_overlap_witness :
  _chunk_text (words 512) = [words 512; words 128]
  /\ Py.split (words 128) = drop 384 (Py.split (words 512)).
Proof.
  assert (H0 : _chunk_text (words 512) !! 0 = Some (words 512))
    by (vm_compute; reflexivity).
  assert (H1 : _chunk_text (words 512) !! 1 = Some (words 128))
    by (vm_compute; reflexivity).
  split; [vm_compute; reflexivity|].
  destruct (chunk_overlap (words 512) 0 (words 512) (words 128) H0 H1)
    as (_ & _ & Hlast).
  apply Hlast. vm_compute. apply le_n.
Defined.

Lemma add_document_skips_exactly_blank_witness :
  blank "  " /\ ~ blank "a"
  /\ add_document CommitFails "d" "  " w2 = (Ret Skipped, w2, [])
  /\ length (index w2)
     < length (index (add_document CommitFails "d" "a" w2).1.2).
Proof.
  assert (Hb : blank "  ") by (repeat constructor).
  assert (Hnb : ~ blank "a").
  { intros Hb'. apply Forall_cons in Hb' as [Hc _]. discriminate Hc. }
  split; [exact Hb|]. split; [exact Hnb|]. split.
  - exact (proj1 (add_document_skips_exactly_blank CommitFails "d" "  " w2) Hb).
  - exact (proj2 (proj2 (add_document_skips_exactly_blank CommitFails "d" "a" w2)
                    Hnb)).
Defined.

Lemma add_document_unique_constraint_witness :
  let w' := (reset (ExecuteFails 0) w1).1.2 in
  _chunk_text "a" <> []
  /\ storable "d" (_chunk_text "a")
  /\ (add_document NoFault "d" "a" empty_world).1.1 = Ret (Added 1)
  /\ (0%Z ∈ stored_ids w')
  /\ exists m,
       add_document NoFault "d" "a" w'
       = (Raise PgUniqueViolation,
          mkWorld (with_vectors w' (_chunk_text "a")) None
                  (committed w') (committed w'),
          EvIndexAdd [0%Z]
          :: (EvInsert <$> take m (rows_from "d" 0 (_chunk_text "a")))
          ++ [EvRollback]).
Proof.
  intros w'.
  assert (Hne : _chunk_text "a" <> []) by (vm_compute; discriminate).
  assert (Hst : storable "d" (_chunk_text "a"))
    by (apply storable_existsb; vm_compute; reflexivity).
  assert (Hin : 0%Z ∈ stored_ids w') by (vm_compute; constructor).
  split; [exact Hne|]. split; [exact Hst|]. split; [|split; [exact Hin|]].
  - destruct (add_document_unique_constraint "d" "a" empty_world Hne Hst)
      as [Hok _].
    rewrite Hok; [reflexivity|].
    intros v _ Hv. apply elem_of_nil in Hv. exact Hv.
  - destruct (add_document_unique_constraint "d" "a" w' Hne Hst)
      as [_ Hfail].
    destruct Hfail as (m & _ & Hout).
    + exists 0%Z. split; [vm_compute; constructor|exact Hin].
    + exists m. exact Hout.
Defined.

Lemma search_paths_witness :
  knn (index empty_world) (encode "anything") 3
  = Some (replicate 3 ((-1)%Z, FLT_MAX))
  /\ search (ExecuteFails 0) "anything" 3 empty_world
     = (Ret [], empty_world, []).
Proof.
  assert (Hknn : knn (index empty_world) (encode "anything") 3
                 = Some (replicate 3 ((-1)%Z, FLT_MAX)))
    by (vm_compute; reflexivity).
  split; [exact Hknn|].
  apply (proj1 (search_paths (ExecuteFails 0) "anything" 3 empty_world _ Hknn)).
  repeat constructor.
Defined.

Lemma failures_leave_ingestion_working_witness :
  let ops := [OpAdd (ExecuteFails 0) "d1" "a"; OpSearch (ExecuteFails 0) "a" 1;
              OpAdd CommitFails "d2" "b"; OpAdd WriteIndexFails "d3" "c"] in
  backed empty_world
  /\ Forall storable_op ops
  /\ length (index (run ops empty_world)) = 3
  /\ committed (run ops empty_world) = [mkRow "d3" "c" 2]
  /\ index_file (run ops empty_world) = None
  /\ storable "d4" (_chunk_text "d")
  /\ (add_document NoFault "d4" "d" (run ops empty_world)).1.1
     = Ret (Added 1).
Proof.
  intros ops.
  assert (Hb : backed empty_world).
  { split; [reflexivity|]. split; [reflexivity|]. split; [constructor|].
    intros r Hr. apply elem_of_nil in Hr. destruct Hr. }
  assert (Hops : Forall storable_op ops).
  { repeat constructor. }
  assert (Hne : _chunk_text "d" <> []) by (vm_compute; discriminate).
  assert (Hst : storable "d4" (_chunk_text "d"))
    by (apply storable_existsb; vm_compute; reflexivity).
  split; [exact Hb|]. split; [exact Hops|]. split; [vm_compute; reflexivity|].
  split; [vm_compute; reflexivity|]. split; [vm_compute; reflexivity|].
  split; [exact Hst|].
  exact (proj1 (proj2 (proj2 (failures_leave_ingestion_working
                                ops empty_world "d4" "d" Hb Hops)) Hne Hst)).
Defined.

Lemma search_results_are_backed_witness :
  backed w2
  /\ (search NoFault "what color is the sky" 1 w2).1.1
     = Ret [mkResult "doc1" "the sky is blue" 45%Z]
  /\ exists row, row ∈ committed w2 /\ row_doc_id row = "doc1"%string.
Proof.
  assert (Hb : backed w2).
  { unfold w2, w1.
    apply backed_add_document;
      [|apply storable_existsb; vm_compute; reflexivity].
    apply backed_add_document;
      [|apply storable_existsb; vm_compute; reflexivity].
    apply backed_empty. }
  assert (Hs : (search NoFault "what color is the sky" 1 w2).1.1
               = Ret [mkResult "doc1" "the sky is blue" 45%Z])
    by (vm_compute; reflexivity).
  split; [exact Hb|]. split; [exact Hs|].
  destruct (search_results_are_backed (H := collaborators)
              NoFault "what color is the sky" 1 w2
              _ (@mkResult collaborators "doc1" "the sky is blue" 45%Z) Hb Hs)
    as (hits & hit & row & _ & _ & Hrow & _ & _ & Hres & _).
  - constructor.
  - exists row. split; [exact Hrow|]. by injection Hres.
Defined.


Lemma restart_after_failed_ingestion_witness :
  durable w2
  /\ (add_document (ExecuteFails 0) "d" "a b" w2).1.1 = Raise PgOperationalError
  /\ __init__ false NoFault (add_document (ExecuteFails 0) "d" "a b" w2).1.2
     = (Ret tt, w2, [EvCommit])
  /\ (add_document WriteIndexFails "d" "a b" w2).1.1 = Raise IndexWriteError
  /\ __init__ false NoFault (add_document WriteIndexFails "d" "a b" w2).1.2
     = (Ret tt,
        mkWorld (index w2) (index_file w2)
                (committed w2 ++ [mkRow "d" "a b" 2])
                (committed w2 ++ [mkRow "d" "a b" 2]),
        [EvCommit]).
Proof.
  assert (Hd : durable w2) by (split; reflexivity).
  assert (Hr : (add_document (ExecuteFails 0) "d" "a b" w2).1.1
               = Raise PgOperationalError) by (vm_compute; reflexivity).
  assert (Hr' : (add_document WriteIndexFails "d" "a b" w2).1.1
                = Raise IndexWriteError) by (vm_compute; reflexivity).
  pose proof (restart_after_failed_ingestion
                (ExecuteFails 0) "d" "a b" w2 _ Hd Hr) as H1.
  pose proof (restart_after_failed_ingestion
                WriteIndexFails "d" "a b" w2 _ Hd Hr') as H2.
  cbv zeta in H1, H2.
  destruct H1 as (_ & _ & Hback & _). destruct H2 as (_ & _ & _ & Hahead).
  split; [exact Hd|]. split; [exact Hr|].
  split; [apply Hback; discriminate|]. split; [exact Hr'|].
  exact (proj2 (Hahead eq_refl)).
Defined.

Lemma init_failure_witness :
  (__init__ false CommitFails w2).1.1 = Raise PgOperationalError
  /\ index (__init__ false CommitFails w2).1.2 = index w2.
Proof.
  pose proof (init_failure false CommitFails w2 (or_intror (or_intror eq_refl)))
    as Hinit.
  cbv zeta in Hinit. destruct Hinit as (Hr & Hidx & _).
  split; [exact Hr|exact Hidx].
Defined.

Lemma ingestion_after_failed_reset_witness :
  consistent w1 /\ committed w1 <> []
  /\ storable "doc2" (_chunk_text "artificial intelligence")
  /\ (add_document NoFault "doc2" "artificial intelligence"
        (reset CommitFails w1).1.2).1.1 = Raise PgUniqueViolation.
Proof.
  assert (Hc : consistent w1) by (repeat split; vm_compute; reflexivity).
  assert (Hrows : committed w1 <> []) by (vm_compute; discriminate).
  assert (Hne : _chunk_text "artificial intelligence" <> [])
    by (vm_compute; discriminate).
  assert (Hst : storable "doc2" (_chunk_text "artificial intelligence"))
    by (apply storable_existsb; vm_compute; reflexivity).
  split; [exact Hc|]. split; [exact Hrows|]. split; [exact Hst|].
  pose proof (ingestion_after_failed_reset CommitFails "doc2"
                "artificial intelligence" w1 Hc Hrows (or_intror eq_refl)
                Hne Hst)
    as Hfail.
  cbv zeta in Hfail. exact (proj1 Hfail).
Defined.

Lemma add_endpoint_replies_witness :
  blank ""
  /\ Main.add_document (ExecuteFails 0) "d1" "" (Some w2)
     = (Main.Respond (Main.mkStatusMessage "ok" "Document 'd1' added successfully."),
        Some w2, []).
Proof.
  assert (Hb : blank "") by constructor.
  split; [exact Hb|].
  pose proof (add_endpoint_replies (ExecuteFails 0) "d1" "" w2) as Hrep.
  cbv zeta in Hrep. exact (proj2 (proj2 (proj2 Hrep)) Hb).
Defined.

Lemma reset_add_search_witness :
  _chunk_text "a b" <> []
  /\ storable "d" (_chunk_text "a b")
  /\ knn (with_vectors empty_world (_chunk_text "a b")) (encode "a") 1
     = Some [(0%Z, 4%Z)]
  /\ exists results,
       (Main.search_vector NoFault "a" 1
          (Main.add_document NoFault "d" "a b"
             (Main.reset_state NoFault (Some w2)).1.2).1.2).1.1
       = Main.Respond results
       /\ mkResult "d" "a b" 4%Z ∈ results.
Proof.
  assert (Hne : _chunk_text "a b" <> []) by (vm_compute; discriminate).
  assert (Hst : storable "d" (_chunk_text "a b"))
    by (apply storable_existsb; vm_compute; reflexivity).
  assert (Hknn : knn (with_vectors empty_world (_chunk_text "a b"))
                   (encode "a") 1 = Some [(0%Z, 4%Z)])
    by (vm_compute; reflexivity).
  split; [exact Hne|]. split; [exact Hst|]. split; [exact Hknn|].
  pose proof (reset_add_search w2 "d" "a b" "a" 1 _ Hne Hst Hknn) as Hrun.
  cbv zeta in Hrun. destruct Hrun as (_ & _ & _ & results & Hr3 & _ & Hall).
  exists results. split; [by rewrite Hr3|].
  apply (Hall 0 "a b"%string 4%Z); [vm_compute; reflexivity|constructor].
Defined.

Lemma reset_after_failed_clear_witness :
  EvRollback ∈ (reset CommitFails w2).2
  /\ (reset CommitFails w2).1.1 = Ret tt
  /\ (reset CommitFails w2).1.2 = mkWorld [] None (committed w2) (committed w2)
  /\ execute_fails NoFault 0 || commit_fails NoFault = false
  /\ (reset NoFault w2).1.2 = empty_world.
Proof.
  assert (Hin : EvRollback ∈ (reset CommitFails w2).2).
  { replace (reset CommitFails w2).2
      with [EvTruncate; EvRollback; EvRemoveIndexFile]
      by (vm_compute; reflexivity).
    apply list_elem_of_further, list_elem_of_here. }
  pose proof (reset_after_failed_clear CommitFails w2) as Hfail.
  pose proof (reset_after_failed_clear NoFault w2) as Hok.
  cbv zeta in Hfail, Hok.
  destruct (proj1 Hfail Hin) as (_ & Hr & Hw).
  destruct (proj2 Hok eq_refl) as (_ & _ & Hw').
  split; [exact Hin|]. split; [exact Hr|]. split; [exact Hw|].
  split; [reflexivity|exact Hw'].
Defined.

Lemma reset_endpoint_after_failed_clear_witness :
  EvRollback ∈ (Main.reset_state (ExecuteFails 0) (Some w2)).2
  /\ (Main.reset_state (ExecuteFails 0) (Some w2)).1.1
     = Main.Respond (Main.mkStatusMessage "ok" "Service state has been reset.")
  /\ (Main.reset_state (ExecuteFails 0) (Some w2)).1.2
     = Some (mkWorld [] None (committed w2) (committed w2)).
Proof.
  assert (Hin : EvRollback ∈ (Main.reset_state (ExecuteFails 0) (Some w2)).2).
  { replace (Main.reset_state (ExecuteFails 0) (Some w2)).2
      with [EvRollback; EvRemoveIndexFile]
      by (vm_compute; reflexivity).
    apply list_elem_of_here. }
  pose proof (reset_endpoint_after_failed_clear (ExecuteFails 0) w2) as Hrep.
  cbv zeta in Hrep. destruct (Hrep Hin) as (_ & Hr & Hw).
  split; [exact Hin|]. split; [exact Hr|exact Hw].
Defined.

Lemma wait_for_server_spec_witness :
  let get := fun i => if i <? 2 then TestScript.ConnectionError
                      else TestScript.Response 200 in
  (exists i, i < 5 /\ get i = TestScript.Response 200)
  /\ TestScript.wait_for_server get = (true, 4, 3).
Proof.
  intros get.
  assert (Hex : exists i, i < 5 /\ get i = TestScript.Response 200)
    by (exists 2; split; [lia|reflexivity]).
  split; [exact Hex|].
  pose proof (wait_for_server_spec get) as Hspec. cbv zeta in Hspec.
  destruct Hspec as (_ & _ & _ & Hiff & _).
  apply Hiff in Hex. vm_compute. reflexivity.
Defined.

End FurtherRuns.
